(** * Saros DLMM portfolio analytics engine: a shallow embedding of
      [SarosDLMMService] (services/dlmmService.ts)

    The service is embedded function by function.  JavaScript numbers are
    kept behind the interface [JSNumber], which has two implementations:

    - [xnum], the rationals extended with the IEEE special values
      [+Infinity], [-Infinity] and [NaN]: every operation is exact, and
      division by zero, [Infinity - Infinity] and the like behave as in
      ECMAScript.  Universal statements are proved here.
    - [float], Rocq's primitive binary64 numbers, which are the numbers
      the service really computes with.  Concrete runs are evaluated here.

    The asynchronous collaborators (ledger SDK, price oracle, clock) are an
    explicit [World]; the service's mutable state (the price cache) and the
    log of oracle queries are threaded through a state and exception
    monad.  Calls are sequential: a call starts after the previous one has
    returned.

    Left out: console logging, signed zeros, and [calculateVolatilityScore]
    (it needs [Math.sqrt], which the exact numbers do not have). *)

From Stdlib Require Import ZArith QArith Qround Lia Lqa Bool.
From Stdlib Require Floats.PrimFloat Floats.SpecFloat Floats.FloatOps.
From stdpp Require Import gmap strings list pretty.

Local Open Scope Z_scope.

(** ** JavaScript numbers *)

Class JSNumber (num : Type) := {
  of_Q : Q -> num;              (* a decimal literal or a JSON number *)
  nan : num;                    (* NaN *)
  neg_infinity : num;           (* -Infinity *)
  nadd : num -> num -> num;     (* a + b *)
  nsub : num -> num -> num;     (* a - b *)
  nmul : num -> num -> num;     (* a * b *)
  ndiv : num -> num -> num;     (* a / b *)
  nltb : num -> num -> bool;    (* a < b *)
  nleb : num -> num -> bool;    (* a <= b *)
  nmin : num -> num -> num;     (* Math.min(a, b) *)
  nmax : num -> num -> num;     (* Math.max(a, b) *)
  nround : num -> num;          (* Math.round(a) *)
  truthy : num -> bool;         (* ToBoolean(a): false on 0 and NaN *)
}.

Declare Scope js_scope.
Delimit Scope js_scope with js.
Notation "a + b" := (nadd a b) : js_scope.
Notation "a - b" := (nsub a b) : js_scope.
Notation "a * b" := (nmul a b) : js_scope.
Notation "a / b" := (ndiv a b) : js_scope.
Notation "a <? b" := (nltb a b) : js_scope.
Notation "a <=? b" := (nleb a b) : js_scope.
Notation "a >? b" := (nltb b a) : js_scope.
Notation "a >=? b" := (nleb b a) : js_scope.

Definition of_Z {num : Type} `{!JSNumber num} (z : Z) : num := of_Q (inject_Z z).
Definition of_nat {num : Type} `{!JSNumber num} (n : nat) : num := of_Z (Z.of_nat n).

(** [Math.pow(x, p)] for a positive integer exponent, by repeated
    multiplication: exact on [xnum]; on binary64 it is [Math.pow] up to
    rounding (and exact for [Math.pow(10, 6)]). *)
Definition npow {num : Type} `{!JSNumber num} (x : num) (p : positive) : num :=
  Pos.iter_op nmul p x.

(** [Math.max(...xs)]: [-Infinity] on the empty list. *)
Definition nmax_list {num : Type} `{!JSNumber num} (xs : list num) : num :=
  foldl nmax neg_infinity xs.

(** *** Exact numbers: rationals with the IEEE special values *)

Inductive xnum : Type :=
  | Fin (q : Q)
  | PInf
  | NInf
  | NaN.

Definition xopp (a : xnum) : xnum :=
  match a with
  | Fin q => Fin (- q)
  | PInf => NInf
  | NInf => PInf
  | NaN => NaN
  end.

Definition xadd (a b : xnum) : xnum :=
  match a, b with
  | NaN, _ | _, NaN => NaN
  | Fin p, Fin q => Fin (p + q)
  | PInf, NInf | NInf, PInf => NaN
  | PInf, _ | _, PInf => PInf
  | NInf, _ | _, NInf => NInf
  end.

Definition xsub (a b : xnum) : xnum := xadd a (xopp b).

(** An infinity of sign [pos] scaled by a finite factor [q]. *)
Definition xinf_scaled (pos : bool) (q : Q) : xnum :=
  match q ?= 0 with
  | Eq => NaN
  | Gt => if pos then PInf else NInf
  | Lt => if pos then NInf else PInf
  end%Q.

Definition xmul (a b : xnum) : xnum :=
  match a, b with
  | NaN, _ | _, NaN => NaN
  | Fin p, Fin q => Fin (p * q)
  | PInf, Fin q | Fin q, PInf => xinf_scaled true q
  | NInf, Fin q | Fin q, NInf => xinf_scaled false q
  | PInf, PInf | NInf, NInf => PInf
  | PInf, NInf | NInf, PInf => NInf
  end.

(** Division.  A zero divisor is read as [+0]: signed zeros are not
    modelled. *)
Definition xdiv (a b : xnum) : xnum :=
  match a, b with
  | NaN, _ | _, NaN => NaN
  | Fin p, Fin q =>
      if Qeq_bool q 0 then
        match p ?= 0 with Eq => NaN | Gt => PInf | Lt => NInf end%Q
      else Fin (p / q)
  | Fin _, (PInf | NInf) => Fin 0
  | PInf, Fin q => match q ?= 0 with Lt => NInf | _ => PInf end%Q
  | NInf, Fin q => match q ?= 0 with Lt => PInf | _ => NInf end%Q
  | (PInf | NInf), (PInf | NInf) => NaN
  end.

Definition xltb (a b : xnum) : bool :=
  match a, b with
  | NaN, _ | _, NaN => false
  | Fin p, Fin q => match p ?= q with Lt => true | _ => false end%Q
  | NInf, (Fin _ | PInf) | Fin _, PInf => true
  | _, _ => false
  end.

Definition xleb (a b : xnum) : bool :=
  match a, b with
  | NaN, _ | _, NaN => false
  | Fin p, Fin q => match p ?= q with Gt => false | _ => true end%Q
  | NInf, _ | _, PInf => true
  | _, _ => false
  end.

Definition xis_nan (a : xnum) : bool :=
  match a with NaN => true | _ => false end.

Definition xmin (a b : xnum) : xnum :=
  if xis_nan a || xis_nan b then NaN else if xleb a b then a else b.

Definition xmax (a b : xnum) : xnum :=
  if xis_nan a || xis_nan b then NaN else if xleb a b then b else a.

(** [Math.round]: the nearest integer, ties towards [+Infinity]. *)
Definition xround (a : xnum) : xnum :=
  match a with
  | Fin q => Fin (inject_Z (Qfloor (q + (1 # 2))%Q))
  | _ => a
  end.

Definition xtruthy (a : xnum) : bool :=
  match a with
  | Fin q => negb (Qeq_bool q 0)
  | NaN => false
  | _ => true
  end.

#[export] Instance exact : JSNumber xnum := {
  of_Q := Fin;
  nan := NaN;
  neg_infinity := NInf;
  nadd := xadd;
  nsub := xsub;
  nmul := xmul;
  ndiv := xdiv;
  nltb := xltb;
  nleb := xleb;
  nmin := xmin;
  nmax := xmax;
  nround := xround;
  truthy := xtruthy;
}.

(** Two exact numbers denote the same value. *)
Definition xeq (a b : xnum) : Prop :=
  match a, b with
  | Fin p, Fin q => (p == q)%Q
  | PInf, PInf | NInf, NInf | NaN, NaN => True
  | _, _ => False
  end.


(** *** Binary64 numbers *)

Module B64.
Import PrimFloat SpecFloat FloatOps.

(** The double nearest to an integer. *)
Definition of_Z (z : Z) : float :=
  SF2Prim (binary_normalize prec emax z 0 false).

(** The double of the quotient of two integers: the correctly rounded
    value of a decimal literal whose digits and power of ten are both
    below [2^53]. *)
Definition of_Q (q : Q) : float :=
  PrimFloat.div (of_Z (Qnum q)) (of_Z (Zpos (Qden q))).

Definition min (a b : float) : float :=
  if is_nan a || is_nan b then nan else if PrimFloat.leb a b then a else b.

Definition max (a b : float) : float :=
  if is_nan a || is_nan b then nan else if PrimFloat.leb a b then b else a.

(** [Math.round]: [floor(x + 1/2)] computed exactly on the mantissa. *)
Definition round (x : float) : float :=
  match Prim2SF x with
  | S754_finite s m e =>
      if 0 <=? e then x
      else
        let sm := if s then Z.neg m else Z.pos m in
        of_Z ((2 * sm + 2 ^ (- e)) / 2 ^ (1 - e))
  | _ => x
  end.

Definition truthy (x : float) : bool := negb (is_nan x || is_zero x).
End B64.

#[export] Instance binary64 : JSNumber PrimFloat.float := {
  of_Q := B64.of_Q;
  nan := PrimFloat.nan;
  neg_infinity := PrimFloat.neg_infinity;
  nadd := PrimFloat.add;
  nsub := PrimFloat.sub;
  nmul := PrimFloat.mul;
  ndiv := PrimFloat.div;
  nltb := PrimFloat.ltb;
  nleb := PrimFloat.leb;
  nmin := B64.min;
  nmax := B64.max;
  nround := B64.round;
  truthy := B64.truthy;
}.

(** ** The world the service talks to *)

(** JSON values as [response.json()] yields them.  The fragment has [null],
    numbers and objects, which is what the oracle's documented payload
    [{ data: { [id]: { price } } }] is built from; own properties only (a
    mint is a base58 address and names no inherited property). *)
#[warnings="-register-all"]
Inductive json : Type :=
  | JNull
  | JNum (q : Q)
  | JObj (fields : list (string * json)).

(** What [fetch] resolves to, or that it rejects.  [body = None]: the
    body is not JSON and [response.json()] rejects. *)
Inductive FetchResult : Type :=
  | NetworkError
  | Response (ok : bool) (status : Z) (body : option json).

Record Reply := { latency : N; result : FetchResult }.

(** A liquidity bin of a raw position; amounts are [BN] integers. *)
Record Bin := {
  binId : Z;
  bin_tokenXAmount : option Z;
  bin_tokenYAmount : option Z;
}.

(** A raw position as the SDK returns it ([position: any] in the source).
    [lowerBinId] and [upperBinId] are its bin boundaries. *)
Record RawPosition := {
  raw_id : option string;
  raw_lbPair : string;
  raw_bins : option (list Bin);
  raw_tokenXAmount : option Q;
  raw_tokenYAmount : option Q;
  raw_createdAt : option Z;
  lowerBinId : Z;
  upperBinId : Z;
}.

(** The pool of a position ([lbPair: any] in the source). *)
Record LBPair := {
  tokenXMint : string;
  tokenYMint : string;
  feeRate : option Z;
  binStep : Z;
}.

(** The collaborators.  [None] stands for a call that throws (rejects);
    [getLBPair] may also resolve to [null]. *)
Record World := {
  oracle : Z -> string -> Reply;
  newPublicKey : string -> option string;
  getPositionsByUser : string -> option (list RawPosition);
  getLBPair : string -> option (option LBPair);
}.

Inductive Error : Type :=
  | InvalidPublicKey
  | LedgerError
  | LBPairNotFound
  | BNAssertion
  | FetchFailed
  | JupiterApiError (status : Z)
  | JsonSyntaxError
  | TypeError.

Inductive Outcome (A : Type) : Type :=
  | Ok (a : A)
  | Throw (e : Error).
Arguments Ok {A} a.
Arguments Throw {A} e.

Inductive RiskLevel : Type := Low | Medium | High.

#[export] Instance RiskLevel_eq_dec : EqDecision RiskLevel.
Proof. solve_decision. Defined.

(** [this.CACHE_TTL], in milliseconds. *)
Definition CACHE_TTL : Z := 30000.

(** [BN.prototype.toNumber]: asserts that the value fits 53 bits. *)
Definition toNumber {num : Type} `{!JSNumber num} (bn : Z) : Outcome num :=
  if Z.abs bn <? 2 ^ 53 then Ok (of_Z bn) else Throw BNAssertion.

(** Own property [v\[k\]] of a parsed value; the last duplicate key wins. *)
Fixpoint assoc (k : string) (fs : list (string * json)) : option json :=
  match fs with
  | [] => None
  | (k', v) :: fs' =>
      match assoc k fs' with
      | Some v' => Some v'
      | None => if decide (k' = k) then Some v else None
      end
  end.

Definition member (v : json) (k : string) : option json :=
  match v with
  | JObj fs => assoc k fs
  | _ => None
  end.

(** [v?.\[k\]]: [undefined] (here [None]) on [undefined] and [null]. *)
Definition opt_member (v : option json) (k : string) : option json :=
  match v with
  | None | Some JNull => None
  | Some v => member v k
  end.

Section Service.
Context {num : Type} `{!JSNumber num}.

Local Open Scope js_scope.

(** *** Service state and the monad of its methods *)

Record CacheEntry := { price : num; timestamp : Z }.

(** [priceCache] is the service's map; [clock] is [Date.now()];
    [queries] logs the mints the oracle was asked for, newest first. *)
Record State := {
  priceCache : gmap string CacheEntry;
  clock : Z;
  queries : list string;
}.

Definition M (A : Type) : Type := State -> Outcome A * State.

Definition ret {A} (a : A) : M A := fun s => (Ok a, s).

Definition bind {A B} (m : M A) (k : A -> M B) : M B :=
  fun s =>
    match m s with
    | (Ok a, s') => k a s'
    | (Throw e, s') => (Throw e, s')
    end.

Definition throw {A} (e : Error) : M A := fun s => (Throw e, s).

(** [try { body } catch (error) { handler }]: what [body] did to the
    state before throwing stays done. *)
Definition try_catch {A} (body : M A) (handler : Error -> M A) : M A :=
  fun s =>
    match body s with
    | (Ok a, s') => (Ok a, s')
    | (Throw e, s') => handler e s'
    end.

Definition lift {A} (o : Outcome A) : M A := fun s => (o, s).

Definition Date_now : M Z := fun s => (Ok (clock s), s).

Definition cache_get (mint : string) : M (option CacheEntry) :=
  fun s => (Ok (priceCache s !! mint), s).

Definition cache_set (mint : string) (e : CacheEntry) : M unit :=
  fun s =>
    (Ok tt, {| priceCache := <[mint := e]> (priceCache s);
               clock := clock s;
               queries := queries s |}).

(** [await fetch(url)]: the query is logged, the clock advances by the
    reply's latency, and a network error rejects. *)
Definition fetch (w : World) (mint : string) : M (bool * Z * option json) :=
  fun s =>
    let r := oracle w (clock s) mint in
    let s' := {| priceCache := priceCache s;
                 clock := clock s + Z.of_N (latency r);
                 queries := mint :: queries s |} in
    match result r with
    | NetworkError => (Throw FetchFailed, s')
    | Response ok status body => (Ok (ok, status, body), s')
    end.
End Service.

Arguments CacheEntry num : clear implicits.
Arguments State num : clear implicits.
Arguments M num A : clear implicits.

Notation "x <- c ;; k" := (bind c (fun x => k))
  (at level 100, c at next level, right associativity) : js_scope.
Notation "c ;; k" := (bind c (fun _ => k))
  (at level 100, right associativity) : js_scope.

Section PriceCache.
Context {num : Type} `{!JSNumber num}.
Local Open Scope js_scope.

(** The cached price when the entry is younger than the TTL. *)
Definition cache_hit (cached : option (CacheEntry num)) (now : Z)
  : option num :=
  match cached with
  | Some c => if (now - timestamp c <? CACHE_TTL)%Z then Some (price c) else None
  | None => None
  end.

(** [data.data?.\[mint\]?.price]; [data.data] on [null] is a TypeError. *)
Definition payload_price (data : json) (mint : string)
  : Outcome (option json) :=
  match data with
  | JNull => Throw TypeError
  | _ => Ok (opt_member (opt_member (member data "data") mint) "price")
  end.

(** [v || d] for the price: [undefined], [null], [0] are falsy; an
    object is truthy and reads as [NaN] in the arithmetic that follows. *)
Definition or_default (v : option json) (d : num) : num :=
  match v with
  | None | Some JNull => d
  | Some (JNum q) => if truthy (of_Q q) then of_Q q else d
  | Some (JObj _) => nan
  end.

Definition getTokenPrice (w : World) (mint : string) : M num num :=
  try_catch
    (cached <- cache_get mint ;;
     now <- Date_now ;;
     match cache_hit cached now with
     | Some p => ret p
     | None =>
         response <- fetch w mint ;;
         let '(ok, status, body) := response in
         if negb ok then throw (JupiterApiError status)
         else
           data <- lift (match body with
                         | Some j => Ok j
                         | None => Throw JsonSyntaxError
                         end) ;;
           found <- lift (payload_price data mint) ;;
           let price := or_default found (of_Q 1.0) in
           now' <- Date_now ;;
           cache_set mint {| price := price; timestamp := now' |} ;;
           ret price
     end)
    (fun _ => ret (of_Q 1.0)).
End PriceCache.

Arguments of_Q {num _} q%_Q.
Arguments of_Z {num _ } z%_Z.

(** ** Position processing *)

Record TokenMetadata := { symbol : string; name : string; decimals : Z }.

(** [getTokenMetadata]: the static table with its unknown-token fallback. *)
Definition getTokenMetadata (mint : string) : TokenMetadata :=
  if decide (mint = "So11111111111111111111111111111111111111112") then
    {| symbol := "SOL"; name := "Solana"; decimals := 9 |}
  else if decide (mint = "EPjFWdd5AufqSSqeM2qN1xzybapC8G4wEGGkZwyTDt1v") then
    {| symbol := "USDC"; name := "USD Coin"; decimals := 6 |}
  else if decide (mint = "Es9vMFrzaCERmJfrF4H2FYD4KCoNkY11McCe8BenwNYB") then
    {| symbol := "USDT"; name := "Tether USD"; decimals := 6 |}
  else {| symbol := "UNKNOWN"; name := "Unknown Token"; decimals := 6 |}.

(** [bin.tokenXAmount && bin.tokenXAmount.gt(new BN(0))] and the same for
    token Y. *)
Definition bin_active (bin : Bin) : bool :=
  match bin_tokenXAmount bin with Some x => 0 <? x | None => false end
  || match bin_tokenYAmount bin with Some y => 0 <? y | None => false end.

Definition countActiveBins (position : RawPosition) : nat :=
  match raw_bins position with
  | Some bins => length (filter (fun bin => bin_active bin = true) bins)
  | None => 0%nat
  end.

Section Processor.
Context {num : Type} `{!JSNumber num}.
Local Open Scope js_scope.

Record Metadata := { feeTier : option num; createdAt : option Z }.

Record PositionData := {
  id : string;
  poolAddress : string;
  pairName : string;
  liquidity : num;
  currentValueUSD : num;
  initialValueUSD : num;
  totalFeesUSD : num;
  pnlUSD : num;
  pnlPercentage : num;
  apy : num;
  tokenXAmount : num;
  tokenYAmount : num;
  tokenXSymbol : string;
  tokenYSymbol : string;
  priceRangeLower : num;
  priceRangeUpper : num;
  currentPrice : num;
  inRange : bool;
  riskLevel : RiskLevel;
  activeBins : nat;
  lastUpdated : Z;
  metadata : option Metadata;
}.

(** One step of the loop of [calculateTokenAmounts]:
    [if (amount) total += amount.toNumber() / Math.pow(10, 6)]. *)
Definition add_amount (total : num) (amount : option Z) : Outcome num :=
  match amount with
  | None => Ok total
  | Some bn =>
      match toNumber bn with
      | Ok n => Ok (total + n / npow (of_Z 10) 6)
      | Throw e => Throw e
      end
  end.

Definition calculateTokenAmounts (position : RawPosition)
  : Outcome (num * num) :=
  match raw_bins position with
  | Some bins =>
      foldl (fun acc bin =>
               match acc with
               | Throw e => Throw e
               | Ok (tokenXAmount, tokenYAmount) =>
                   match add_amount tokenXAmount (bin_tokenXAmount bin) with
                   | Throw e => Throw e
                   | Ok tokenXAmount' =>
                       match add_amount tokenYAmount (bin_tokenYAmount bin) with
                       | Throw e => Throw e
                       | Ok tokenYAmount' => Ok (tokenXAmount', tokenYAmount')
                       end
                   end
               end)
            (Ok (of_Z 0, of_Z 0)) bins
  | None => Ok (of_Z 0, of_Z 0)
  end.

(** [amount || 0] on a position-level amount. *)
Definition amount_or_zero (amount : option Q) : num :=
  match amount with
  | Some q => if truthy (of_Q q) then of_Q q else of_Z 0
  | None => of_Z 0
  end.

Definition calculateFeesUSD (position : RawPosition)
    (tokenXPrice tokenYPrice : num) : num :=
  let baseFees := of_Q 0.1 in
  let volumeMultiplier := of_Q 0.001 in
  let positionValue :=
    amount_or_zero (raw_tokenXAmount position) * tokenXPrice
    + amount_or_zero (raw_tokenYAmount position) * tokenYPrice in
  baseFees + positionValue * volumeMultiplier.

Definition getPriceRange (position : RawPosition) (lbPair : LBPair)
  : num * num :=
  let currentPrice := of_Q 1.0 in
  let rangePercentage := of_Q 0.1 in
  (currentPrice * (of_Z 1 - rangePercentage),
   currentPrice * (of_Z 1 + rangePercentage)).

(** [position.createdAt] when truthy. *)
Definition created_at (position : RawPosition) : option Z :=
  match raw_createdAt position with
  | Some t => if (t =? 0)%Z then None else Some t
  | None => None
  end.

Definition calculateAPY (position : RawPosition) (feesUSD initialUSD : num)
  : M num num :=
  try_catch
    (if initialUSD <=? of_Z 0 then ret (of_Z 0)
     else
       t <- Date_now ;;
       let createdAt :=
         match created_at position with
         | Some c => c
         | None => (t - 7 * 24 * 60 * 60 * 1000)%Z
         end in
       now <- Date_now ;;
       let daysSinceCreation :=
         (of_Z now - of_Z createdAt) / of_Z (1000 * 60 * 60 * 24) in
       if daysSinceCreation <=? of_Z 0 then ret (of_Z 0)
       else
         let dailyReturn := feesUSD / initialUSD / daysSinceCreation in
         let annualizedReturn := npow (of_Z 1 + dailyReturn) 365 - of_Z 1 in
         let apy := nmin (annualizedReturn * of_Z 100) (of_Z 1000) in
         ret (nmax (of_Z 0) apy))
    (fun _ => ret (of_Z 0)).

(** Arithmetic on numbers never throws, so the source's [catch] branch
    (which answers ['Medium']) has nothing to catch. *)
Definition calculateRiskLevel (lower upper current : num) : RiskLevel :=
  let rangePercentage := (upper - lower) / lower in
  let distanceToLower := (current - lower) / lower in
  let distanceToUpper := (upper - current) / upper in
  let minDistance := nmin distanceToLower distanceToUpper in
  if (rangePercentage <? of_Q 0.05) && (minDistance <? of_Q 0.02) then High
  else if (rangePercentage <? of_Q 0.05) || (minDistance <? of_Q 0.05) then Medium
  else Low.

Definition processPosition (w : World) (position : RawPosition)
  : M num PositionData :=
  try_catch
    (found <- lift (match getLBPair w (raw_lbPair position) with
                    | Some r => Ok r
                    | None => Throw LedgerError
                    end) ;;
     match found with
     | None => throw LBPairNotFound
     | Some lbPair =>
         let tokenXMetadata := getTokenMetadata (tokenXMint lbPair) in
         let tokenYMetadata := getTokenMetadata (tokenYMint lbPair) in
         amounts <- lift (calculateTokenAmounts position) ;;
         let '(tokenXAmount, tokenYAmount) := amounts in
         tokenXPrice <- getTokenPrice w (tokenXMint lbPair) ;;
         tokenYPrice <- getTokenPrice w (tokenYMint lbPair) ;;
         let currentValueUSD :=
           tokenXAmount * tokenXPrice + tokenYAmount * tokenYPrice in
         let feesUSD := calculateFeesUSD position tokenXPrice tokenYPrice in
         let initialValueUSD := nmax (of_Z 0) (currentValueUSD - feesUSD) in
         let pnlUSD := currentValueUSD - initialValueUSD + feesUSD in
         let pnlPercentage :=
           if initialValueUSD >? of_Z 0
           then pnlUSD / initialValueUSD * of_Z 100
           else of_Z 0 in
         apy <- calculateAPY position feesUSD initialValueUSD ;;
         let '(priceRangeLower, priceRangeUpper) :=
           getPriceRange position lbPair in
         let currentPrice := tokenYPrice / tokenXPrice in
         let inRange :=
           (currentPrice >=? priceRangeLower)
           && (currentPrice <=? priceRangeUpper) in
         let riskLevel :=
           calculateRiskLevel priceRangeLower priceRangeUpper currentPrice in
         let activeBins := countActiveBins position in
         now <- Date_now ;;
         feeTier <- lift (match feeRate lbPair with
                          | Some bn =>
                              match toNumber bn with
                              | Ok n => Ok (n / of_Z 1000000)
                              | Throw e => Throw e
                              end
                          | None => Ok (of_Q 0.01)
                          end) ;;
         ret {| id := match raw_id position with
                      | Some i => if decide (i = "") then "pos_" +:+ pretty now else i
                      | None => "pos_" +:+ pretty now
                      end;
                poolAddress := raw_lbPair position;
                pairName := symbol tokenXMetadata +:+ "-" +:+ symbol tokenYMetadata;
                liquidity := currentValueUSD;
                currentValueUSD := currentValueUSD;
                initialValueUSD := initialValueUSD;
                totalFeesUSD := feesUSD;
                pnlUSD := pnlUSD;
                pnlPercentage := pnlPercentage;
                apy := apy;
                tokenXAmount := tokenXAmount;
                tokenYAmount := tokenYAmount;
                tokenXSymbol := symbol tokenXMetadata;
                tokenYSymbol := symbol tokenYMetadata;
                priceRangeLower := priceRangeLower;
                priceRangeUpper := priceRangeUpper;
                currentPrice := currentPrice;
                inRange := inRange;
                riskLevel := riskLevel;
                activeBins := activeBins;
                lastUpdated := now;
                metadata :=
                  Some {| feeTier := Some feeTier;
                          createdAt := Some match created_at position with
                                            | Some c => c
                                            | None => now
                                            end |} |}
     end)
    (fun error => throw error).
End Processor.

Arguments Metadata num : clear implicits.
Arguments PositionData num : clear implicits.

(** ** The facade *)

Section Facade.
Context {num : Type} `{!JSNumber num}.
Local Open Scope js_scope.

(** [getMockPositions()]; [now] is the clock that [new Date()] and
    [Date.now()] read. *)
Definition getMockPositions (now : Z) : list (PositionData num) :=
  [ {| id := "mock_pos_1";
       poolAddress := "So11111111111111111111111111111111111111112";
       pairName := "SOL-USDC";
       liquidity := of_Z 5000;
       currentValueUSD := of_Z 5250;
       initialValueUSD := of_Z 5000;
       totalFeesUSD := of_Z 125;
       pnlUSD := of_Z 375;
       pnlPercentage := of_Q 7.5;
       apy := of_Q 15.2;
       tokenXAmount := of_Q 10.5;
       tokenYAmount := of_Z 4200;
       tokenXSymbol := "SOL";
       tokenYSymbol := "USDC";
       priceRangeLower := of_Z 95;
       priceRangeUpper := of_Z 105;
       currentPrice := of_Z 100;
       inRange := true;
       riskLevel := Low;
       activeBins := 12;
       lastUpdated := now;
       metadata :=
         Some {| feeTier := Some (of_Q 0.01);
                 createdAt := Some (now - 7 * 24 * 60 * 60 * 1000)%Z |} |};
    {| id := "mock_pos_2";
       poolAddress := "EPjFWdd5AufqSSqeM2qN1xzybapC8G4wEGGkZwyTDt1v";
       pairName := "USDC-USDT";
       liquidity := of_Z 2500;
       currentValueUSD := of_Z 2480;
       initialValueUSD := of_Z 2500;
       totalFeesUSD := of_Z 45;
       pnlUSD := of_Z 25;
       pnlPercentage := of_Q 1.0;
       apy := of_Q 8.5;
       tokenXAmount := of_Z 2480;
       tokenYAmount := of_Z 2480;
       tokenXSymbol := "USDC";
       tokenYSymbol := "USDT";
       priceRangeLower := of_Q 0.995;
       priceRangeUpper := of_Q 1.005;
       currentPrice := of_Q 1.002;
       inRange := true;
       riskLevel := Low;
       activeBins := 8;
       lastUpdated := now;
       metadata :=
         Some {| feeTier := Some (of_Q 0.005);
                 createdAt := Some (now - 14 * 24 * 60 * 60 * 1000)%Z |} |};
    {| id := "mock_pos_3";
       poolAddress := "Es9vMFrzaCERmJfrF4H2FYD4KCoNkY11McCe8BenwNYB";
       pairName := "SOL-USDT";
       liquidity := of_Z 3000;
       currentValueUSD := of_Z 2850;
       initialValueUSD := of_Z 3000;
       totalFeesUSD := of_Z 60;
       pnlUSD := of_Z (-90);
       pnlPercentage := of_Q (-3.0);
       apy := of_Q 5.2;
       tokenXAmount := of_Q 8.5;
       tokenYAmount := of_Z 2850;
       tokenXSymbol := "SOL";
       tokenYSymbol := "USDT";
       priceRangeLower := of_Z 110;
       priceRangeUpper := of_Z 120;
       currentPrice := of_Z 105;
       inRange := false;
       riskLevel := High;
       activeBins := 5;
       lastUpdated := now;
       metadata :=
         Some {| feeTier := Some (of_Q 0.02);
                 createdAt := Some (now - 3 * 24 * 60 * 60 * 1000)%Z |} |} ].

(** The [for (const position of positions)] loop of [getUserPositions]:
    a position whose processing throws is skipped. *)
Fixpoint processAll (w : World) (positions : list RawPosition)
    (processedPositions : list (PositionData num))
  : M num (list (PositionData num)) :=
  match positions with
  | [] => ret processedPositions
  | position :: rest =>
      processedPositions' <-
        try_catch
          (processedPosition <- processPosition w position ;;
           ret (processedPositions ++ [processedPosition]))
          (fun _ => ret processedPositions) ;;
      processAll w rest processedPositions'
  end.

Definition getUserPositions (w : World) (walletAddress : string)
  : M num (list (PositionData num)) :=
  try_catch
    (userPubkey <- lift (match newPublicKey w walletAddress with
                         | Some k => Ok k
                         | None => Throw InvalidPublicKey
                         end) ;;
     positions <- lift (match getPositionsByUser w userPubkey with
                        | Some ps => Ok ps
                        | None => Throw LedgerError
                        end) ;;
     if (length positions =? 0)%nat then
       now <- Date_now ;; ret (getMockPositions now)
     else
       processAll w positions [])
    (fun _ => now <- Date_now ;; ret (getMockPositions now)).

(** ** Portfolio aggregation *)

Record Metrics := {
  diversificationScore : num;
  averagePositionSize : num;
  largestPositionSize : num;
  uniqueTokens : nat;
  portfolioAge : Z;
}.

(** [volatilityScore] is left out of the record: it needs [Math.sqrt],
    which the exact numbers do not have, and nothing below reads it.  The
    summary's [totalFeesUSD] is [totalFeesUSD_sum] here, the name being
    taken by the field of [PositionData]. *)
Record PortfolioSummary := {
  totalValueUSD : num;
  totalPnlUSD : num;
  totalPnlPercentage : num;
  totalFeesUSD_sum : num;
  averageAPY : num;
  activePositions : nat;
  inRangePositions : nat;
  outOfRangePositions : nat;
  riskScore : num;
  topPerformer : string;
  worstPerformer : string;
  metrics : option Metrics;
}.

(** [xs.reduce((sum, x) => sum + f(x), 0)] *)
Definition sum_by {A} (f : A -> num) (xs : list A) : num :=
  foldl (fun sum x => sum + f x) (of_Z 0) xs.

(** [xs.filter(p).length] *)
Definition count {A} (p : A -> bool) (xs : list A) : nat :=
  length (filter (fun x => p x = true) xs).

(** [calculatePortfolioRisk]; no step of its body throws, so the [catch]
    branch (which answers [50]) is never taken. *)
Definition calculatePortfolioRisk (positions : list (PositionData num)) : num :=
  if (length positions =? 0)%nat then of_Z 0
  else
    let totalValue := sum_by currentValueUSD positions in
    let maxPositionValue := nmax_list (map currentValueUSD positions) in
    let concentrationRisk := maxPositionValue / totalValue * of_Z 50 in
    let outOfRangeCount := count (fun pos => negb (inRange pos)) positions in
    let outOfRangeRisk :=
      of_nat outOfRangeCount / of_nat (length positions) * of_Z 30 in
    let highRiskCount :=
      count (fun pos => bool_decide (riskLevel pos = High)) positions in
    let mediumRiskCount :=
      count (fun pos => bool_decide (riskLevel pos = Medium)) positions in
    let individualRisk :=
      (of_nat highRiskCount * of_Z 10 + of_nat mediumRiskCount * of_Z 5)
      / of_nat (length positions) in
    let riskScore :=
      nmin (of_Z 100) (concentrationRisk + outOfRangeRisk + individualRisk) in
    nround riskScore.

Definition countUniqueTokens (positions : list (PositionData num)) : nat :=
  size (list_to_set
          (flat_map (fun pos => [tokenXSymbol pos; tokenYSymbol pos]) positions)
        : gset string).

Definition calculateDiversificationScore (positions : list (PositionData num))
  : num :=
  if (length positions <=? 1)%nat then of_Z 0
  else
    let uniqueTokens := countUniqueTokens positions in
    let positionCount := length positions in
    let tokenScore := nmin (of_Z 50) (of_nat uniqueTokens * of_Z 10) in
    let positionScore := nmin (of_Z 50) (of_nat positionCount * of_Z 5) in
    nmin (of_Z 100) (tokenScore + positionScore).

(** [pos.metadata?.createdAt || pos.lastUpdated] *)
Definition age_date (pos : PositionData num) : Z :=
  match metadata pos with
  | Some {| createdAt := Some c |} => c
  | _ => lastUpdated pos
  end.

Definition calculatePortfolioAge (now : Z) (positions : list (PositionData num))
  : Z :=
  match positions with
  | [] => 0
  | first :: rest =>
      let oldestPosition :=
        foldl (fun oldest pos =>
                 if (age_date pos <? age_date oldest)%Z then pos else oldest)
              first rest in
      ((now - age_date oldestPosition) / (1000 * 60 * 60 * 24))%Z
  end.

(** [\[...positions\].sort((a, b) => b.pnlPercentage - a.pnlPercentage)]:
    a stable insertion; [a] moves behind [b] when the comparator is
    positive.  (With a [NaN] comparator the order is left to the engine.) *)
Fixpoint insert_by_pnl (a : PositionData num) (sorted : list (PositionData num))
  : list (PositionData num) :=
  match sorted with
  | [] => [a]
  | b :: rest =>
      if pnlPercentage b - pnlPercentage a >? of_Z 0
      then b :: insert_by_pnl a rest
      else a :: b :: rest
  end.

Definition sortedByPnl (positions : list (PositionData num))
  : list (PositionData num) :=
  foldr insert_by_pnl [] positions.

Definition getEmptyPortfolioSummary : PortfolioSummary :=
  {| totalValueUSD := of_Z 0;
     totalPnlUSD := of_Z 0;
     totalPnlPercentage := of_Z 0;
     totalFeesUSD_sum := of_Z 0;
     averageAPY := of_Z 0;
     activePositions := 0;
     inRangePositions := 0;
     outOfRangePositions := 0;
     riskScore := of_Z 0;
     topPerformer := "";
     worstPerformer := "";
     metrics :=
       Some {| diversificationScore := of_Z 0;
               averagePositionSize := of_Z 0;
               largestPositionSize := of_Z 0;
               uniqueTokens := 0;
               portfolioAge := 0 |} |}.

(** [getPortfolioSummary]; no step of its body throws, so the [catch]
    branch (the empty summary) is never taken.  [now] is the clock. *)
Definition getPortfolioSummary (now : Z) (positions : list (PositionData num))
  : PortfolioSummary :=
  if (length positions =? 0)%nat then getEmptyPortfolioSummary
  else
    let totalValueUSD := sum_by currentValueUSD positions in
    let totalPnlUSD := sum_by pnlUSD positions in
    let totalFeesUSD := sum_by totalFeesUSD positions in
    let totalInitialUSD := sum_by initialValueUSD positions in
    let totalPnlPercentage :=
      if totalInitialUSD >? of_Z 0
      then totalPnlUSD / totalInitialUSD * of_Z 100
      else of_Z 0 in
    let weightedAPY :=
      sum_by (fun pos => apy pos * currentValueUSD pos) positions
      / totalValueUSD in
    let activePositions := length positions in
    let inRangePositions := count inRange positions in
    let outOfRangePositions := (activePositions - inRangePositions)%nat in
    let sorted := sortedByPnl positions in
    let topPerformer :=
      match head sorted with Some pos => id pos | None => "" end in
    let worstPerformer :=
      match last sorted with Some pos => id pos | None => "" end in
    let riskScore := calculatePortfolioRisk positions in
    {| totalValueUSD := totalValueUSD;
       totalPnlUSD := totalPnlUSD;
       totalPnlPercentage := totalPnlPercentage;
       totalFeesUSD_sum := totalFeesUSD;
       averageAPY := if truthy weightedAPY then weightedAPY else of_Z 0;
       activePositions := activePositions;
       inRangePositions := inRangePositions;
       outOfRangePositions := outOfRangePositions;
       riskScore := riskScore;
       topPerformer := topPerformer;
       worstPerformer := worstPerformer;
       metrics :=
         Some {| diversificationScore := calculateDiversificationScore positions;
                 averagePositionSize := totalValueUSD / of_nat activePositions;
                 largestPositionSize :=
                   nmax_list (map currentValueUSD positions);
                 uniqueTokens := countUniqueTokens positions;
                 portfolioAge := calculatePortfolioAge now positions |} |}.
End Facade.

Arguments PortfolioSummary num : clear implicits.
Arguments Metrics num : clear implicits.

(** ** Vocabulary of the statements *)

Section Vocabulary.
Context {num : Type} `{!JSNumber num}.
Local Open Scope js_scope.

(** Time passes between two calls: the state with the clock at [t]. *)
Definition at_time (t : Z) (s : State num) : State num :=
  {| priceCache := priceCache s; clock := t; queries := queries s |}.

(** The state once [fetch] has resolved or rejected. *)
Definition after_fetch (w : World) (mint : string) (s : State num) : State num :=
  {| priceCache := priceCache s;
     clock := (clock s + Z.of_N (latency (oracle w (clock s) mint)))%Z;
     queries := mint :: queries s |}.

(** The call at state [s] is not served from the cache. *)
Definition cache_miss (mint : string) (s : State num) : Prop :=
  cache_hit (priceCache s !! mint) (clock s) = None.

(** The query fails with an exception: network error, non-OK response,
    a body that is not JSON, or the JSON value [null]. *)
Definition fetch_throws (r : FetchResult) : bool :=
  match r with
  | NetworkError => true
  | Response ok _ body =>
      negb ok || match body with
                 | None | Some JNull => true
                 | Some _ => false
                 end
  end.

(** The response is OK and parses, but holds no price for [mint]. *)
Definition price_missing (mint : string) (r : FetchResult) : bool :=
  match r with
  | Response true _ (Some j) =>
      match payload_price j mint with
      | Ok None => true
      | _ => false
      end
  | _ => false
  end.

(** Oracle failure in the words of the spec: non-OK response, malformed
    payload, missing price, or network error. *)
Definition oracle_fails (mint : string) (r : FetchResult) : bool :=
  fetch_throws r || price_missing mint r.

(** The number of oracle queries a run from [s] to [s'] has issued. *)
Definition queries_between (s s' : State num) : Z :=
  (Z.of_nat (length (queries s')) - Z.of_nat (length (queries s)))%Z.

(** §4.3b of the spec, in its words. *)
Definition rangePct (lower upper : num) : num := (upper - lower) / lower.
Definition minDist (lower upper current : num) : num :=
  nmin ((current - lower) / lower) ((upper - current) / upper).

Definition high_risk (lower upper current : num) : bool :=
  (rangePct lower upper <? of_Q 0.05) && (minDist lower upper current <? of_Q 0.02).
Definition medium_risk (lower upper current : num) : bool :=
  negb (high_risk lower upper current)
  && ((rangePct lower upper <? of_Q 0.05) || (minDist lower upper current <? of_Q 0.05)).

(** A position's [riskLevel] is the one the thresholds give its triple. *)
Definition follows_thresholds (p : PositionData num) : Prop :=
  let l := priceRangeLower p in
  let u := priceRangeUpper p in
  let c := currentPrice p in
  (riskLevel p = High <-> high_risk l u c = true)
  /\ (riskLevel p = Medium <-> medium_risk l u c = true)
  /\ (riskLevel p = Low <-> high_risk l u c = false /\ medium_risk l u c = false).

(** [pnlUSD] and [pnlPercentage] are what the three USD inputs give;
    [same] says when two numbers are the same value. *)
Definition pnl_consistent (same : num -> num -> Prop) (p : PositionData num)
  : Prop :=
  same (pnlUSD p) (currentValueUSD p - initialValueUSD p + totalFeesUSD p)
  /\ same (pnlPercentage p)
          (if initialValueUSD p >? of_Z 0
           then pnlUSD p / initialValueUSD p * of_Z 100
           else of_Z 0).

(** What [processPosition] makes of a raw position, field by field. *)
Definition processed (p : PositionData num) : Prop :=
  initialValueUSD p = nmax (of_Z 0) (currentValueUSD p - totalFeesUSD p)
  /\ pnl_consistent eq p
  /\ priceRangeLower p = of_Q 1.0 * (of_Z 1 - of_Q 0.1)
  /\ priceRangeUpper p = of_Q 1.0 * (of_Z 1 + of_Q 0.1)
  /\ riskLevel p
     = calculateRiskLevel (priceRangeLower p) (priceRangeUpper p) (currentPrice p).

(** The fields of a demo position that the spec documents. *)
Definition documented (p : PositionData num)
  : string * string * num * num * RiskLevel * bool :=
  (id p, pairName p, currentValueUSD p, pnlUSD p, riskLevel p, inRange p).

(** The spec's reading of a malformed address: the parse error reaches
    the caller of [getUserPositions]. *)
Definition parse_error_surfaces (w : World) (walletAddress : string)
    (s : State num) : Prop :=
  newPublicKey w walletAddress = None ->
  exists e s', getUserPositions w walletAddress s = (Throw e, s').

(** The spec's reading of step 10: raw positions that differ in their bin
    boundaries or in the bin step of their pool get different ranges. *)
Definition range_tracks_bins (position1 position2 : RawPosition)
    (lbPair1 lbPair2 : LBPair) : Prop :=
  (lowerBinId position1, upperBinId position1, binStep lbPair1)
  <> (lowerBinId position2, upperBinId position2, binStep lbPair2) ->
  getPriceRange (num := num) position1 lbPair1
  <> getPriceRange position2 lbPair2.

(** The spec's reading of an oracle failure: the call answers [1.0], no
    entry is stored for the id, and the next call asks the oracle again. *)
Definition failure_leaves_cache_unset (w : World) (mint : string)
    (s : State num) : Prop :=
  cache_miss mint s ->
  oracle_fails mint (result (oracle w (clock s) mint)) = true ->
  let s' := snd (getTokenPrice w mint s) in
  fst (getTokenPrice w mint s) = Ok (of_Q 1.0)
  /\ priceCache s' !! mint = None
  /\ forall t, clock s' <= t ->
       queries (snd (getTokenPrice w mint (at_time t s'))) = mint :: queries s'.

(** The first of two calls runs into a query that throws. *)
Definition first_query_fails (w : World) (mint : string) (s : State num) : bool :=
  match cache_hit (priceCache s !! mint) (clock s) with
  | Some _ => false
  | None => fetch_throws (result (oracle w (clock s) mint))
  end.

(** The spec's reading of the cache: a second call that starts at [t2],
    after the first has returned and less than 30 s after it started,
    brings the number of queries to one at most. *)
Definition at_most_one_query (w : World) (mint : string) (s : State num)
    (t2 : Z) : Prop :=
  let s1 := snd (getTokenPrice w mint s) in
  let s2 := snd (getTokenPrice w mint (at_time t2 s1)) in
  clock s1 <= t2 ->
  t2 - clock s < CACHE_TTL ->
  queries_between s s2 <= 1.

Definition risk_triple (p : PositionData num) : num * num * num :=
  (priceRangeLower p, priceRangeUpper p, currentPrice p).

(** The spec's reading: every returned position follows the thresholds. *)
Definition thresholds_hold_in_output (w : World) (walletAddress : string)
    (s : State num) : Prop :=
  forall ps s',
    getUserPositions w walletAddress s = (Ok ps, s') ->
    Forall follows_thresholds ps.

End Vocabulary.

(** Severity order [Low < Medium < High]. *)
Definition severity (r : RiskLevel) : Z :=
  match r with Low => 0 | Medium => 1 | High => 2 end.

(** The ledger's answer for a wallet: [None] when the address does not
    parse or the SDK call throws. *)
Definition ledger_positions (w : World) (walletAddress : string)
  : option (list RawPosition) :=
  match newPublicKey w walletAddress with
  | Some userPubkey => getPositionsByUser w userPubkey
  | None => None
  end.

(** [0 <= r && r <= 100] *)
Definition within_0_100 {num : Type} `{!JSNumber num} (r : num) : bool :=
  (of_Z 0 <=? r)%js && (r <=? of_Z 100)%js.

(** Finite or [NaN]: what prices are when the oracle speaks JSON. *)
Definition not_infinite (a : xnum) : Prop :=
  match a with
  | PInf | NInf => False
  | _ => True
  end.

(** No cached price is infinite: an invariant of the service. *)
Definition cache_finite (s : State xnum) : Prop :=
  forall mint e, priceCache s !! mint = Some e -> not_infinite (price e).

(** A method keeps the invariant, whether it returns or throws. *)
Definition keeps_cache_finite {A} (m : M xnum A) : Prop :=
  forall s o s', cache_finite s -> m s = (o, s') -> cache_finite s'.

(** The position is worth a finite, non-negative (positive) amount. *)
Definition worth_nonneg (p : PositionData xnum) : Prop :=
  exists v, currentValueUSD p = Fin v /\ (0 <= v)%Q.
Definition worth_positive (p : PositionData xnum) : Prop :=
  exists v, currentValueUSD p = Fin v /\ (0 < v)%Q.

(** ** Scenarios *)

(** The state a freshly constructed service starts in. *)
Definition s_init {num : Type} : State num :=
  {| priceCache := ∅; clock := 1700000000000; queries := [] |}.

Definition sol_usdc : LBPair :=
  {| tokenXMint := "So11111111111111111111111111111111111111112";
     tokenYMint := "EPjFWdd5AufqSSqeM2qN1xzybapC8G4wEGGkZwyTDt1v";
     feeRate := Some 2500;
     binStep := 10 |}.

Definition usdc_usdt : LBPair :=
  {| tokenXMint := "EPjFWdd5AufqSSqeM2qN1xzybapC8G4wEGGkZwyTDt1v";
     tokenYMint := "Es9vMFrzaCERmJfrF4H2FYD4KCoNkY11McCe8BenwNYB";
     feeRate := None;
     binStep := 1 |}.

(** One token X in a single bin, bins 100 to 120. *)
Definition one_token : RawPosition :=
  {| raw_id := Some "pos_a";
     raw_lbPair := "pool_a";
     raw_bins := Some [ {| binId := 100;
                           bin_tokenXAmount := Some 1000000;
                           bin_tokenYAmount := None |} ];
     raw_tokenXAmount := None;
     raw_tokenYAmount := None;
     raw_createdAt := None;
     lowerBinId := 100;
     upperBinId := 120 |}.


(** A position whose liquidity was withdrawn: no bins, bins -5 to 5. *)
Definition withdrawn : RawPosition :=
  {| raw_id := Some "pos_b";
     raw_lbPair := "pool_b";
     raw_bins := None;
     raw_tokenXAmount := None;
     raw_tokenYAmount := None;
     raw_createdAt := None;
     lowerBinId := -5;
     upperBinId := 5 |}.

Definition pools (pool : string) : option (option LBPair) :=
  if decide (pool = "pool_a") then Some (Some sol_usdc)
  else if decide (pool = "pool_b") then Some (Some usdc_usdt)
  else Some None.

(** The oracle is unreachable; the wallet holds [positions]. *)
Definition w_offline (positions : list RawPosition) : World :=
  {| oracle := fun _ _ => {| latency := 5; result := NetworkError |};
     newPublicKey := fun a => Some a;
     getPositionsByUser := fun _ => Some positions;
     getLBPair := pools |}.

(** The oracle answers every query with [body]. *)
Definition w_answering (body : json) (positions : list RawPosition) : World :=
  {| oracle := fun _ _ => {| latency := 5; result := Response true 200 (Some body) |};
     newPublicKey := fun a => Some a;
     getPositionsByUser := fun _ => Some positions;
     getLBPair := pools |}.

(** No wallet address parses. *)
Definition w_bad_address : World :=
  {| oracle := fun _ _ => {| latency := 5; result := NetworkError |};
     newPublicKey := fun _ => None;
     getPositionsByUser := fun _ => Some [one_token];
     getLBPair := pools |}.

(** [{ "data": {} }]: a well-formed payload without a price. *)
Definition no_price : json := JObj [("data", JObj [])].

(** [{ "data": { "mint_a": { "price": 2.5 } } }] *)
Definition priced : json :=
  JObj [("data", JObj [("mint_a", JObj [("price", JNum 2.5)])])].


(** ** Vocabulary of the further properties *)

(** The bins of a raw position ([position.bins] when it is an array). *)
Definition position_bins (position : RawPosition) : list Bin :=
  default [] (raw_bins position).

(** A [BN] that [toNumber] accepts. *)
Definition fits53 (bn : Z) : bool := Z.abs bn <? 2 ^ 53.

Definition bin_fits (bin : Bin) : bool :=
  from_option fits53 true (bin_tokenXAmount bin)
  && from_option fits53 true (bin_tokenYAmount bin).

(** The sum of one token's raw amounts over the bins, absent amounts
    counting for nothing. *)
Definition sum_amounts (amount : Bin -> option Z) (bins : list Bin) : Z :=
  foldr (fun bin total => default 0 (amount bin) + total) 0 bins.

(** No amount of the bin is negative. *)
Definition bin_nonneg (bin : Bin) : bool :=
  from_option (Z.leb 0) true (bin_tokenXAmount bin)
  && from_option (Z.leb 0) true (bin_tokenYAmount bin).

(** A position whose two bins were emptied. *)
Definition emptied : RawPosition :=
  {| raw_id := Some "pos_d";
     raw_lbPair := "pool_a";
     raw_bins := Some [ {| binId := 7;
                           bin_tokenXAmount := Some 0;
                           bin_tokenYAmount := Some 0 |};
                        {| binId := 8;
                           bin_tokenXAmount := Some 0;
                           bin_tokenYAmount := None |} ];
     raw_tokenXAmount := None;
     raw_tokenYAmount := None;
     raw_createdAt := None;
     lowerBinId := 7;
     upperBinId := 8 |}.

Section FurtherVocabulary.
Context {num : Type} `{!JSNumber num}.

(** From [s] to [s'] the clock did not go back, the log of oracle queries
    only grew, and no cache entry was removed. *)
Definition state_extends (s s' : State num) : Prop :=
  clock s <= clock s'
  /\ queries s `suffix_of` queries s'
  /\ forall mint, is_Some (priceCache s !! mint) -> is_Some (priceCache s' !! mint).

(** A method only ever extends the state, whether it returns or throws. *)
Definition only_extends {A} (m : M num A) : Prop :=
  forall s o s', m s = (o, s') -> state_extends s s'.


(** The pool of the raw position cannot be resolved: [getLBPair] throws
    or answers [null]. *)
Definition pool_missing (w : World) (raw : RawPosition) : Prop :=
  getLBPair w (raw_lbPair raw) = None \/ getLBPair w (raw_lbPair raw) = Some None.
End FurtherVocabulary.

(** A position in a pool the ledger does not know. *)
Definition orphan : RawPosition :=
  {| raw_id := Some "pos_e";
     raw_lbPair := "pool_z";
     raw_bins := Some [ {| binId := 1;
                           bin_tokenXAmount := Some 5000000;
                           bin_tokenYAmount := Some 5000000 |} ];
     raw_tokenXAmount := None;
     raw_tokenYAmount := None;
     raw_createdAt := None;
     lowerBinId := 1;
     upperBinId := 1 |}.

(** A price that is exactly zero, or absent: what [|| 1.0] replaces. *)
Definition price_nonzero (a : xnum) : Prop :=
  match a with
  | Fin q => ~ (q == 0)%Q
  | _ => True
  end.

(** No cached price is zero: an invariant of the service. *)
Definition cache_nonzero (s : State xnum) : Prop :=
  forall mint e, priceCache s !! mint = Some e -> price_nonzero (price e).

(** A service whose cache holds 2.5 for ["mint_a"], stored at [stored]. *)
Definition s_cached {num : Type} `{!JSNumber num} (stored : Z) : State num :=
  {| priceCache := {[ "mint_a" := {| price := of_Q 2.5; timestamp := stored |} ]};
     clock := 1700000000000;
     queries := [] |}.

(** [{ "data": { "mint_a": { "price": 0 } } }] *)
Definition free_of_charge : json :=
  JObj [("data", JObj [("mint_a", JObj [("price", JNum 0)])])].

(** The profit percentage is a finite number. *)
Definition pnl_finite (p : PositionData xnum) : Prop :=
  exists q, pnlPercentage p = Fin q.

(** [p] does not outperform [q]. *)
Definition pnl_le (p q : PositionData xnum) : Prop :=
  xleb (pnlPercentage p) (pnlPercentage q) = true.

(** Best performer first. *)
Fixpoint descending (l : list (PositionData xnum)) : Prop :=
  match l with
  | [] => True
  | x :: rest => Forall (fun y => pnl_le y x) rest /\ descending rest
  end.

(** ** The hooks of the dashboard

    The pure parts of [hooks/useSarosDLMM.ts]: the computed values of
    [useSarosDLMM], [useFilteredPositions], [usePaginatedPositions] and
    [usePortfolioStats].  Left out: the React state and effects of
    [useSarosDLMM], and [useSortedPositions], whose order on strings is
    that of [localeCompare]. *)

(** [Math.ceil] on the exact numbers. *)
Definition xceil (a : xnum) : xnum :=
  match a with
  | Fin q => Fin (inject_Z (Qceiling q))
  | _ => a
  end.

(** [xs.slice(start, end)] for whole [start] and [end]: a negative index
    counts from the end, both are clamped to the array, and an [end] at or
    before [start] gives the empty array. *)
Definition js_slice {A} (xs : list A) (start finish : Z) : list A :=
  let len := Z.of_nat (length xs) in
  let k := if start <? 0 then Z.max (len + start) 0 else Z.min start len in
  let final := if finish <? 0 then Z.max (len + finish) 0 else Z.min finish len in
  take (Z.to_nat (final - k)) (drop (Z.to_nat k) xs).

Section Hooks.
Context {num : Type} `{!JSNumber num}.
Local Open Scope js_scope.

Record Paginated := {
  paginatedPositions : list (PositionData num);
  totalPages : xnum;
  hasNextPage : bool;
  hasPrevPage : bool;
  totalItems : nat;
}.

(** [usePaginatedPositions], for a whole [page] and a whole [limit]; the
    quotient [totalItems / limit] is taken exactly. *)
Definition usePaginatedPositions (positions : list (PositionData num))
    (page limit : Z) : Paginated :=
  let startIndex := ((page - 1) * limit)%Z in
  let endIndex := (startIndex + limit)%Z in
  let totalItems := length positions in
  let totalPages :=
    xceil (xdiv (Fin (inject_Z (Z.of_nat totalItems))) (Fin (inject_Z limit))) in
  {| paginatedPositions := js_slice positions startIndex endIndex;
     totalPages := totalPages;
     hasNextPage := xltb (Fin (inject_Z page)) totalPages;
     hasPrevPage := (1 <? page)%Z;
     totalItems := totalItems |}.

(** The strings of the type [RiskLevel]. *)
Definition level_name (r : RiskLevel) : string :=
  match r with
  | Low => "Low"
  | Medium => "Medium"
  | High => "High"
  end.

Record PortfolioStats := {
  totalPositions : nat;
  totalValue : num;
  totalPnL : num;
  totalFees : num;
  stats_inRangePositions : nat;
  stats_outOfRangePositions : nat;
  riskDistribution : gmap string nat;
  stats_averageAPY : num;
  bestPerformer : option (PositionData num);
  stats_worstPerformer : option (PositionData num);
}.

(** [usePortfolioStats]; [positions\[0\] || null] seeds the two searches,
    which then run over every position, the first included. *)
Definition usePortfolioStats (positions : list (PositionData num))
  : PortfolioStats :=
  let totalPositions := length positions in
  let totalValue := sum_by currentValueUSD positions in
  let totalPnL := sum_by pnlUSD positions in
  let totalFees := sum_by totalFeesUSD positions in
  let inRangePositions := count inRange positions in
  let outOfRangePositions := (totalPositions - inRangePositions)%nat in
  let riskDistribution :=
    foldl (fun (acc : gmap string nat) pos =>
             <[level_name (riskLevel pos) :=
                 (default 0%nat (acc !! level_name (riskLevel pos)) + 1)%nat]> acc)
          ∅ positions in
  let averageAPY :=
    if totalValue >? of_Z 0
    then sum_by (fun pos => apy pos * currentValueUSD pos) positions / totalValue
    else of_Z 0 in
  let bestPerformer :=
    match head positions with
    | None => None
    | Some first =>
        Some (foldl (fun best pos =>
                       if pnlPercentage pos >? pnlPercentage best
                       then pos else best)
                    first positions)
    end in
  let worstPerformer :=
    match head positions with
    | None => None
    | Some first =>
        Some (foldl (fun worst pos =>
                       if pnlPercentage pos <? pnlPercentage worst
                       then pos else worst)
                    first positions)
    end in
  {| totalPositions := totalPositions;
     totalValue := totalValue;
     totalPnL := totalPnL;
     totalFees := totalFees;
     stats_inRangePositions := inRangePositions;
     stats_outOfRangePositions := outOfRangePositions;
     riskDistribution := riskDistribution;
     stats_averageAPY := averageAPY;
     bestPerformer := bestPerformer;
     stats_worstPerformer := worstPerformer |}.

(** The computed values of [useSarosDLMM]: [summary?.field || fallback]. *)
Record Computed := {
  hasPositions : bool;
  shown_totalValue : num;
  shown_totalPnL : num;
  shown_totalPnLPercentage : num;
  inRangeCount : nat;
  outOfRangeCount : nat;
  shown_averageAPY : num;
  shown_riskScore : num;
  shown_topPerformer : string;
  shown_worstPerformer : string;
}.

(** [summary?.field || 0] on a number. *)
Definition number_or_zero (summary : option (PortfolioSummary num))
    (field : PortfolioSummary num -> num) : num :=
  match summary with
  | Some s => if truthy (field s) then field s else of_Z 0
  | None => of_Z 0
  end.

Definition computed (positions : list (PositionData num))
    (summary : option (PortfolioSummary num)) : Computed :=
  {| hasPositions := (0 <? length positions)%nat;
     shown_totalValue := number_or_zero summary totalValueUSD;
     shown_totalPnL := number_or_zero summary totalPnlUSD;
     shown_totalPnLPercentage := number_or_zero summary totalPnlPercentage;
     inRangeCount := from_option inRangePositions 0%nat summary;
     outOfRangeCount := from_option outOfRangePositions 0%nat summary;
     shown_averageAPY := number_or_zero summary averageAPY;
     shown_riskScore := number_or_zero summary riskScore;
     shown_topPerformer := from_option topPerformer "" summary;
     shown_worstPerformer := from_option worstPerformer "" summary |}.

(** The criteria of [useFilteredPositions]; [None] is an absent field. *)
Record Filters := {
  filter_riskLevel : option (list string);
  filter_inRange : option bool;
  filter_pairName : option string;
  minPnlPercentage : option num;
  maxPnlPercentage : option num;
  minAPY : option num;
  maxAPY : option num;
}.

(** The string methods the pair-name criterion calls. *)
Record StringMethods := {
  trim : string -> string;
  toLowerCase : string -> string;
  includes : string -> string -> bool;
}.

(** The callback of [positions.filter] in [useFilteredPositions]. *)
Definition passes (str : StringMethods) (filters : Filters)
    (position : PositionData num) : bool :=
  match filter_riskLevel filters with
  | Some (level :: levels) =>
      bool_decide (level_name (riskLevel position) ∈ level :: levels)
  | _ => true
  end
  && match filter_inRange filters with
     | Some wanted => eqb (inRange position) wanted
     | None => true
     end
  && match filter_pairName filters with
     | Some wanted =>
         if decide (wanted <> "" /\ trim str wanted <> "")
         then includes str (toLowerCase str (pairName position))
                (toLowerCase str wanted)
         else true
     | None => true
     end
  && match minPnlPercentage filters with
     | Some bound => negb (pnlPercentage position <? bound)
     | None => true
     end
  && match maxPnlPercentage filters with
     | Some bound => negb (pnlPercentage position >? bound)
     | None => true
     end
  && match minAPY filters with
     | Some bound => negb (apy position <? bound)
     | None => true
     end
  && match maxAPY filters with
     | Some bound => negb (apy position >? bound)
     | None => true
     end.

Definition useFilteredPositions (str : StringMethods)
    (positions : list (PositionData num)) (filters : Filters)
  : list (PositionData num) :=
  filter (fun position => passes str filters position = true) positions.

(** [useFilteredPositions(positions)]: the default [filters = {}]. *)
Definition no_filters : Filters :=
  {| filter_riskLevel := None;
     filter_inRange := None;
     filter_pairName := None;
     minPnlPercentage := None;
     maxPnlPercentage := None;
     minAPY := None;
     maxAPY := None |}.
End Hooks.

Arguments Paginated num : clear implicits.
Arguments PortfolioStats num : clear implicits.
Arguments Computed num : clear implicits.
Arguments Filters num : clear implicits.

(** The first position that none of the later ones outperforms, searched
    from the right: what a stable descending sort puts first. *)
Fixpoint first_best (a : PositionData xnum) (rest : list (PositionData xnum))
  : PositionData xnum :=
  match rest with
  | [] => a
  | b :: rest' =>
      let m := first_best b rest' in
      if xltb (pnlPercentage a) (pnlPercentage m) then m else a
  end.

(** A demo position under another id and with another profit percentage. *)
Definition relabelled (i : string) (pct : Q) : PositionData xnum :=
  match getMockPositions 0 with
  | p :: _ =>
      {| id := i;
         poolAddress := poolAddress p;
         pairName := pairName p;
         liquidity := liquidity p;
         currentValueUSD := currentValueUSD p;
         initialValueUSD := initialValueUSD p;
         totalFeesUSD := totalFeesUSD p;
         pnlUSD := pnlUSD p;
         pnlPercentage := Fin pct;
         apy := apy p;
         tokenXAmount := tokenXAmount p;
         tokenYAmount := tokenYAmount p;
         tokenXSymbol := tokenXSymbol p;
         tokenYSymbol := tokenYSymbol p;
         priceRangeLower := priceRangeLower p;
         priceRangeUpper := priceRangeUpper p;
         currentPrice := currentPrice p;
         inRange := inRange p;
         riskLevel := riskLevel p;
         activeBins := activeBins p;
         lastUpdated := lastUpdated p;
         metadata := metadata p |}
  | [] =>
      {| id := i; poolAddress := ""; pairName := "";
         liquidity := NaN; currentValueUSD := NaN; initialValueUSD := NaN;
         totalFeesUSD := NaN; pnlUSD := NaN; pnlPercentage := Fin pct;
         apy := NaN; tokenXAmount := NaN; tokenYAmount := NaN;
         tokenXSymbol := ""; tokenYSymbol := "";
         priceRangeLower := NaN; priceRangeUpper := NaN; currentPrice := NaN;
         inRange := false; riskLevel := Low; activeBins := 0;
         lastUpdated := 0; metadata := None |}
  end.

(** Two positions tied at the bottom, below a third. *)
Definition tied_at_the_bottom : list (PositionData xnum) :=
  [relabelled "first" 1; relabelled "second" 7; relabelled "third" 1].

(** ** Formatting

    Of [utils/formatting.ts], the two colour functions the position card
    calls and [formatDuration]; the formatters built on [toFixed] and
    [toLocaleString] are left out. *)






(** ** The price cache *)

Section PriceCacheFacts.
Context {num : Type} `{!JSNumber num}.
Local Open Scope js_scope.

Lemma getTokenPrice_hit (w : World) (mint : string) (s : State num) (p : num) :
  cache_hit (priceCache s !! mint) (clock s) = Some p ->
  getTokenPrice w mint s = (Ok p, s).
Proof.
  intros Hhit. unfold getTokenPrice, try_catch, bind, cache_get, Date_now.
  simpl. rewrite Hhit. reflexivity.
Qed.

Lemma getTokenPrice_miss_throws (w : World) (mint : string) (s : State num) :
  cache_miss mint s ->
  fetch_throws (result (oracle w (clock s) mint)) = true ->
  getTokenPrice w mint s = (Ok (of_Q 1.0), after_fetch w mint s).
Proof.
  intros Hmiss Hthrow. unfold cache_miss in Hmiss.
  unfold getTokenPrice, try_catch, bind, cache_get, Date_now, fetch.
  simpl. rewrite Hmiss. unfold after_fetch.
  destruct (result (oracle w (clock s) mint)) as [|ok status body]; simpl in *.
  - reflexivity.
  - destruct ok; simpl in *; [|reflexivity].
    destruct body as [[| |]|]; simpl in *; try discriminate; reflexivity.
Qed.

Lemma getTokenPrice_miss_parsed (w : World) (mint : string) (s : State num)
    (status : Z) (j : json) (found : option json) :
  cache_miss mint s ->
  result (oracle w (clock s) mint) = Response true status (Some j) ->
  payload_price j mint = Ok found ->
  getTokenPrice w mint s
  = (Ok (or_default found (of_Q 1.0)),
     {| priceCache :=
          <[mint := {| price := or_default found (of_Q 1.0);
                       timestamp := clock (after_fetch w mint s) |}]>
            (priceCache s);
        clock := clock (after_fetch w mint s);
        queries := mint :: queries s |}).
Proof.
  intros Hmiss Hres Hfound. unfold cache_miss in Hmiss.
  unfold getTokenPrice, try_catch, bind, cache_get, Date_now, fetch, lift,
    cache_set, ret.
  simpl. rewrite Hmiss, Hres. simpl. rewrite Hfound. reflexivity.
Qed.

(** Every reply is one of the two cases above. *)
Lemma fetch_throws_or_parsed (mint : string) (r : FetchResult) :
  fetch_throws r = true
  \/ exists status j found,
       r = Response true status (Some j) /\ payload_price j mint = Ok found.
Proof.
  destruct r as [|[] status [j|]]; simpl; auto.
  destruct j; simpl; eauto 6.
Qed.

(** [getTokenPrice] never throws. *)
Lemma getTokenPrice_returns (w : World) (mint : string) (s : State num) :
  exists p s', getTokenPrice w mint s = (Ok p, s').
Proof.
  destruct (cache_hit (priceCache s !! mint) (clock s)) as [p|] eqn:Hhit.
  - eauto using getTokenPrice_hit.
  - destruct (fetch_throws_or_parsed mint (result (oracle w (clock s) mint)))
      as [Hthrow|(status & j & found & Hres & Hfound)].
    + eauto using getTokenPrice_miss_throws.
    + eauto using getTokenPrice_miss_parsed.
Qed.

(** A miss stays a miss while nothing is stored and time moves on. *)
Lemma cache_miss_later (mint : string) (s s' : State num) (t : Z) :
  cache_miss mint s ->
  priceCache s' = priceCache s ->
  (clock s <= t)%Z ->
  cache_miss mint (at_time t s').
Proof.
  unfold cache_miss, cache_hit, at_time. simpl. intros Hmiss -> Ht.
  destruct (priceCache s !! mint) as [c|]; [|reflexivity].
  destruct (clock s - timestamp c <? CACHE_TTL)%Z eqn:Hfresh; [discriminate|].
  apply Z.ltb_ge in Hfresh.
  destruct (t - timestamp c <? CACHE_TTL)%Z eqn:Hfresh'; [|reflexivity].
  apply Z.ltb_lt in Hfresh'. lia.
Qed.

(** A call that misses the cache issues exactly one query. *)
Lemma getTokenPrice_miss_queries (w : World) (mint : string) (s : State num) :
  cache_miss mint s ->
  queries (snd (getTokenPrice w mint s)) = mint :: queries s.
Proof.
  intros Hmiss.
  destruct (fetch_throws_or_parsed mint (result (oracle w (clock s) mint)))
    as [Hthrow|(status & j & found & Hres & Hfound)].
  - rewrite getTokenPrice_miss_throws by assumption. reflexivity.
  - erewrite getTokenPrice_miss_parsed by eassumption. reflexivity.
Qed.
End PriceCacheFacts.

(** ** Running the monad *)

Section MonadFacts.
Context {num : Type} `{!JSNumber num}.
Local Open Scope js_scope.

Lemma bind_Ok {A B} (m : M num A) (k : A -> M num B) (s s' : State num) (b : B) :
  bind m k s = (Ok b, s') ->
  exists a s1, m s = (Ok a, s1) /\ k a s1 = (Ok b, s').
Proof.
  unfold bind. destruct (m s) as [[a|e] s1]; [eauto|discriminate].
Qed.


Lemma ret_Ok {A} (a b : A) (s s' : State num) :
  ret a s = (Ok b, s') -> b = a /\ s' = s.
Proof. unfold ret. intros [= -> ->]. auto. Qed.

Lemma rethrow_Ok {A} (m : M num A) (s s' : State num) (a : A) :
  try_catch m (fun error => throw error) s = (Ok a, s') -> m s = (Ok a, s').
Proof.
  unfold try_catch, throw. destruct (m s) as [[a0|e] s0]; [auto|discriminate].
Qed.
End MonadFacts.

(** ** Positions that went through [processPosition] *)

Section ProcessorFacts.
Context {num : Type} `{!JSNumber num}.
Local Open Scope js_scope.

Lemma processPosition_processed (w : World) (position : RawPosition)
    (s s' : State num) (p : PositionData num) :
  processPosition w position s = (Ok p, s') -> processed p.
Proof.
  unfold processPosition. intros Hrun. apply rethrow_Ok in Hrun.
  apply bind_Ok in Hrun as (found & s1 & _ & Hrun).
  destruct found as [lbPair|]; [|discriminate].
  apply bind_Ok in Hrun as ([tokenXAmount tokenYAmount] & s2 & _ & Hrun).
  apply bind_Ok in Hrun as (tokenXPrice & s3 & _ & Hrun).
  apply bind_Ok in Hrun as (tokenYPrice & s4 & _ & Hrun).
  apply bind_Ok in Hrun as (apy & s5 & _ & Hrun).
  unfold getPriceRange in Hrun.
  apply bind_Ok in Hrun as (now & s6 & _ & Hrun).
  apply bind_Ok in Hrun as (feeTier & s7 & _ & Hrun).
  apply ret_Ok in Hrun as [-> _].
  repeat split; reflexivity.
Qed.

(** The skipping loop never throws. *)
Lemma processAll_returns (w : World) (positions : list RawPosition) :
  forall (acc : list (PositionData num)) (s : State num),
    exists ps s', processAll w positions acc s = (Ok ps, s').
Proof.
  induction positions as [|position rest IH]; intros acc s; simpl.
  - unfold ret. eauto.
  - unfold bind at 1, try_catch.
    destruct (bind (processPosition w position) _ s) as [[acc'|e] s1];
      [apply IH|unfold ret; apply IH].
Qed.

(** Whatever the loop returns beyond its accumulator was processed. *)
Lemma processAll_Forall (P : PositionData num -> Prop) (w : World)
    (positions : list RawPosition) :
  (forall position s s' p, processPosition w position s = (Ok p, s') -> P p) ->
  forall (acc ps : list (PositionData num)) (s s' : State num),
    Forall P acc ->
    processAll w positions acc s = (Ok ps, s') ->
    Forall P ps.
Proof.
  intros HP. induction positions as [|position rest IH];
    intros acc ps s s' Hacc Hrun; simpl in Hrun.
  - apply ret_Ok in Hrun as [-> _]. exact Hacc.
  - apply bind_Ok in Hrun as (acc' & s1 & Hstep & Hrun).
    apply (IH acc' ps s1 s'); [|exact Hrun].
    unfold try_catch in Hstep.
    destruct (bind (processPosition w position) _ s) as [[acc0|e] s0] eqn:Hbody.
    + injection Hstep as -> ->.
      apply bind_Ok in Hbody as (p & s2 & Hp & Hret).
      apply ret_Ok in Hret as [-> _].
      apply Forall_app. split; [exact Hacc|].
      constructor; [eapply HP; exact Hp|constructor].
    + apply ret_Ok in Hstep as [-> _]. exact Hacc.
Qed.

(** The two ways [getUserPositions] answers. *)
Lemma getUserPositions_demo (w : World) (walletAddress : string) (s : State num) :
  ledger_positions w walletAddress = None
  \/ ledger_positions w walletAddress = Some [] ->
  getUserPositions w walletAddress s = (Ok (getMockPositions (clock s)), s).
Proof.
  unfold ledger_positions, getUserPositions, try_catch, bind, lift, Date_now, ret.
  intros [Hl|Hl]; destruct (newPublicKey w walletAddress) as [k|];
    try discriminate; try reflexivity; rewrite Hl; reflexivity.
Qed.

Lemma getUserPositions_processed (w : World) (walletAddress : string)
    (s : State num) (raw : RawPosition) (raws : list RawPosition) :
  ledger_positions w walletAddress = Some (raw :: raws) ->
  getUserPositions w walletAddress s = processAll w (raw :: raws) [] s.
Proof.
  unfold ledger_positions, getUserPositions. intros Hl.
  destruct (newPublicKey w walletAddress) as [k|]; [|discriminate].
  unfold try_catch, bind at 1, lift at 1. unfold bind at 1, lift at 1.
  rewrite Hl. cbn [length Nat.eqb].
  destruct (processAll_returns w (raw :: raws) [] s) as (ps & s' & ->).
  reflexivity.
Qed.

(** [getUserPositions] never throws. *)
Lemma getUserPositions_returns (w : World) (walletAddress : string)
    (s : State num) :
  exists ps s', getUserPositions w walletAddress s = (Ok ps, s').
Proof.
  destruct (ledger_positions w walletAddress) as [[|raw raws]|] eqn:Hl.
  - rewrite getUserPositions_demo by auto. eauto.
  - rewrite (getUserPositions_processed _ _ _ _ _ Hl).
    apply processAll_returns.
  - rewrite getUserPositions_demo by auto. eauto.
Qed.

(** Each answer is the demo set or a list of processed positions. *)
Lemma getUserPositions_cases (w : World) (walletAddress : string)
    (s s' : State num) (ps : list (PositionData num)) :
  getUserPositions w walletAddress s = (Ok ps, s') ->
  ps = getMockPositions (clock s') \/ Forall processed ps.
Proof.
  intros Hrun.
  destruct (ledger_positions w walletAddress) as [[|raw raws]|] eqn:Hl.
  - rewrite getUserPositions_demo in Hrun by auto.
    injection Hrun as <- <-. auto.
  - rewrite (getUserPositions_processed _ _ _ _ _ Hl) in Hrun. right.
    eapply processAll_Forall; [|constructor|exact Hrun].
    intros. eapply processPosition_processed. eassumption.
  - rewrite getUserPositions_demo in Hrun by auto.
    injection Hrun as <- <-. auto.
Qed.
End ProcessorFacts.

(** ** P&L consistency *)

Section PnL.
Local Open Scope js_scope.

Lemma demo_pnl_consistent_exact (now : Z) :
  Forall (pnl_consistent xeq) (getMockPositions (num := xnum) now).
Proof. repeat constructor; vm_compute; reflexivity. Qed.

Lemma demo_pnl_consistent_binary64 (now : Z) :
  Forall (pnl_consistent eq) (getMockPositions (num := PrimFloat.float) now).
Proof. repeat constructor; vm_compute; reflexivity. Qed.

Lemma xeq_refl (a : xnum) : xeq a a.
Proof. destruct a; simpl; [reflexivity|exact I..]. Qed.

Lemma processed_pnl_consistent {num : Type} `{!JSNumber num}
    (same : num -> num -> Prop) (p : PositionData num) :
  (forall a, same a a) -> processed p -> pnl_consistent same p.
Proof.
  intros Hrefl (_ & [Hpnl Hpct] & _). split.
  - rewrite Hpnl at 1. apply Hrefl.
  - rewrite Hpct at 1. apply Hrefl.
Qed.

(** C1.  Every position that [getUserPositions] returns, whether it went
    through [processPosition] or belongs to the demo set, has
    [pnlUSD = currentValueUSD - initialValueUSD + totalFeesUSD] and
    [pnlPercentage = pnlUSD / initialValueUSD * 100] when
    [initialValueUSD > 0], and [0] otherwise.  The first half is over the
    exact numbers, the second over the binary64 numbers of the service. *)
Theorem pnl_consistent_in_output :
  (forall (w : World) (walletAddress : string) (s s' : State xnum)
          (ps : list (PositionData xnum)),
      getUserPositions w walletAddress s = (Ok ps, s') ->
      Forall (pnl_consistent xeq) ps)
  /\ (forall (w : World) (walletAddress : string) (s s' : State PrimFloat.float)
             (ps : list (PositionData PrimFloat.float)),
         getUserPositions w walletAddress s = (Ok ps, s') ->
         Forall (pnl_consistent eq) ps).
Proof.
  split; intros w walletAddress s s' ps Hrun;
    destruct (getUserPositions_cases _ _ _ _ _ Hrun) as [-> | Hps].
  - apply demo_pnl_consistent_exact.
  - eapply Forall_impl; [exact Hps|].
    intros p Hp. apply processed_pnl_consistent; [apply xeq_refl|exact Hp].
  - apply demo_pnl_consistent_binary64.
  - eapply Forall_impl; [exact Hps|].
    intros p Hp. apply processed_pnl_consistent; [reflexivity|exact Hp].
Qed.
End PnL.

Lemma pnl_consistent_in_output_witness :
  exists (ps : list (PositionData PrimFloat.float)) (s' : State PrimFloat.float),
    getUserPositions (w_offline [one_token; withdrawn]) "wallet" s_init = (Ok ps, s')
    /\ length ps = 2%nat
    /\ Forall (pnl_consistent eq) ps.
Proof.
  eexists _, _. split; [vm_compute; reflexivity|]. split; [reflexivity|].
  eapply (proj2 pnl_consistent_in_output
            (w_offline [one_token; withdrawn]) "wallet" s_init).
  vm_compute; reflexivity.
Defined.

(** ** The demo fallback of the facade *)

Section Fallback.
Context {num : Type} `{!JSNumber num}.

(** C3.  When the ledger fetch throws or returns no raw position,
    [getUserPositions] returns exactly the three demo positions, in order:
    mock_pos_1 (SOL-USDC, 5250, +375, Low, in range), mock_pos_2
    (USDC-USDT, 2480, +25, Low, in range) and mock_pos_3 (SOL-USDT, 2850,
    -90, High, out of range). *)
Theorem demo_positions_when_ledger_empty_or_failing
    (w : World) (walletAddress userPubkey : string) (s : State num) :
  newPublicKey w walletAddress = Some userPubkey ->
  getPositionsByUser w userPubkey = None
  \/ getPositionsByUser w userPubkey = Some [] ->
  exists ps,
    getUserPositions w walletAddress s = (Ok ps, s)
    /\ ps = getMockPositions (clock s)
    /\ map documented ps
       = [ ("mock_pos_1", "SOL-USDC", of_Z 5250, of_Z 375, Low, true);
           ("mock_pos_2", "USDC-USDT", of_Z 2480, of_Z 25, Low, true);
           ("mock_pos_3", "SOL-USDT", of_Z 2850, of_Z (-90), High, false) ].
Proof.
  intros Hkey Hfetch. exists (getMockPositions (clock s)).
  split; [|split; reflexivity].
  apply getUserPositions_demo. unfold ledger_positions. rewrite Hkey.
  destruct Hfetch as [-> | ->]; auto.
Qed.

(** C6, as the code has it.  A wallet address that does not parse makes
    [new PublicKey] throw inside the facade's [try]; the [catch] absorbs
    the error and the call returns the demo positions. *)
Theorem malformed_address_falls_back_to_demo
    (w : World) (walletAddress : string) (s : State num) :
  newPublicKey w walletAddress = None ->
  getUserPositions w walletAddress s = (Ok (getMockPositions (clock s)), s).
Proof.
  intros Hkey. apply getUserPositions_demo. left.
  unfold ledger_positions. rewrite Hkey. reflexivity.
Qed.

(** C7, as the code has it.  [getPriceRange] reads neither the bins nor
    the pool: every processed position gets the range
    [1.0 * (1 - 0.1)] to [1.0 * (1 + 0.1)], which is what [getPriceRange]
    answers for any position and any pool. *)
Theorem price_range_is_constant
    (w : World) (position : RawPosition) (s s' : State num)
    (p : PositionData num) :
  processPosition w position s = (Ok p, s') ->
  priceRangeLower p = (of_Q 1.0 * (of_Z 1 - of_Q 0.1))%js
  /\ priceRangeUpper p = (of_Q 1.0 * (of_Z 1 + of_Q 0.1))%js
  /\ forall (position' : RawPosition) (lbPair' : LBPair),
       getPriceRange position' lbPair' = (priceRangeLower p, priceRangeUpper p).
Proof.
  intros Hrun. apply processPosition_processed in Hrun.
  destruct Hrun as (_ & _ & Hlower & Hupper & _).
  rewrite Hlower, Hupper. repeat split; reflexivity.
Qed.
End Fallback.

Lemma demo_positions_when_ledger_empty_or_failing_witness :
  exists ps : list (PositionData PrimFloat.float),
    getUserPositions (w_offline []) "wallet" s_init = (Ok ps, s_init)
    /\ ps = getMockPositions (clock (s_init (num := PrimFloat.float)))
    /\ map documented ps
       = [ ("mock_pos_1", "SOL-USDC", of_Z 5250, of_Z 375, Low, true);
           ("mock_pos_2", "USDC-USDT", of_Z 2480, of_Z 25, Low, true);
           ("mock_pos_3", "SOL-USDT", of_Z 2850, of_Z (-90), High, false) ].
Proof.
  apply (demo_positions_when_ledger_empty_or_failing
           (w_offline []) "wallet" "wallet" s_init);
    [reflexivity | right; reflexivity].
Defined.

(** C6, as the spec words it, fails: nothing is thrown. *)
Lemma parse_error_is_absorbed :
  ~ parse_error_surfaces (num := PrimFloat.float) w_bad_address "not-a-wallet" s_init.
Proof.
  intros Hclaim. destruct (Hclaim eq_refl) as (e & s' & Hthrow).
  vm_compute in Hthrow. discriminate Hthrow.
Qed.

Lemma malformed_address_falls_back_to_demo_witness :
  newPublicKey w_bad_address "not-a-wallet" = None
  /\ getUserPositions (num := PrimFloat.float) w_bad_address "not-a-wallet" s_init
     = (Ok (getMockPositions (clock (s_init (num := PrimFloat.float)))), s_init).
Proof.
  split; [reflexivity|].
  apply (malformed_address_falls_back_to_demo w_bad_address "not-a-wallet" s_init).
  reflexivity.
Defined.

(** C7, as the spec words it, fails: bins 100 to 120 at step 10 and bins
    -5 to 5 at step 1 get the same range. *)
Lemma price_range_ignores_bins :
  ~ range_tracks_bins (num := PrimFloat.float) one_token withdrawn sol_usdc usdc_usdt.
Proof.
  intros Hclaim. apply Hclaim; [discriminate|reflexivity].
Qed.

Lemma price_range_is_constant_witness :
  exists (p : PositionData PrimFloat.float) (s' : State PrimFloat.float),
    processPosition (w_offline []) one_token s_init = (Ok p, s')
    /\ priceRangeLower p = of_Q 0.9 /\ priceRangeUpper p = of_Q 1.1.
Proof.
  eexists _, _. split; [vm_compute; reflexivity|].
  split;
    [etransitivity; [eapply (price_range_is_constant (w_offline []) one_token s_init)|]
    |etransitivity; [eapply (price_range_is_constant (w_offline []) one_token s_init)|]];
    vm_compute; reflexivity.
Defined.

(** ** The price cache: fallback and reuse *)

Section CacheClaims.
Context {num : Type} `{!JSNumber num}.

Lemma getTokenPrice_queries (w : World) (mint : string) (s : State num) :
  queries (snd (getTokenPrice w mint s))
  = match cache_hit (priceCache s !! mint) (clock s) with
    | Some _ => queries s
    | None => mint :: queries s
    end.
Proof.
  destruct (cache_hit (priceCache s !! mint) (clock s)) as [p|] eqn:Hhit.
  - rewrite (getTokenPrice_hit _ _ _ _ Hhit). reflexivity.
  - apply getTokenPrice_miss_queries. exact Hhit.
Qed.

(** C2, as the code has it.  When the query throws (network error, non-OK
    response, a body that is not JSON or is [null]) the call answers [1.0],
    leaves the cache as it was, and every later call asks the oracle
    again.  When the payload parses but holds no price for the id, the call
    answers [1.0] as well, but stores that [1.0] with the current time, and
    calls in the next 30 s are served from the cache. *)
Theorem fallback_price_and_cache (w : World) (mint : string) (s : State num) :
  cache_miss mint s ->
  let r := result (oracle w (clock s) mint) in
  let s' := snd (getTokenPrice w mint s) in
  (fetch_throws r = true ->
   getTokenPrice w mint s = (Ok (of_Q 1.0), after_fetch w mint s)
   /\ priceCache s' = priceCache s
   /\ forall t, clock s <= t ->
        queries (snd (getTokenPrice w mint (at_time t s'))) = mint :: queries s')
  /\ (price_missing mint r = true ->
      fst (getTokenPrice w mint s) = Ok (of_Q 1.0)
      /\ priceCache s' !! mint
         = Some {| price := of_Q 1.0; timestamp := clock s' |}
      /\ forall t, t - clock s' < CACHE_TTL ->
           getTokenPrice w mint (at_time t s') = (Ok (of_Q 1.0), at_time t s')).
Proof.
  intros Hmiss r s'. split.
  - intros Hthrow. subst s'.
    rewrite (getTokenPrice_miss_throws _ _ _ Hmiss Hthrow). simpl.
    split; [reflexivity|]. split; [reflexivity|]. intros t Ht.
    apply getTokenPrice_miss_queries.
    apply (cache_miss_later mint s); [exact Hmiss|reflexivity|exact Ht].
  - intros Hmissing. subst r s'. unfold price_missing in Hmissing.
    destruct (result (oracle w (clock s) mint)) as [|[] status [j|]] eqn:Hres;
      try discriminate.
    destruct (payload_price j mint) as [[found|]|] eqn:Hfound; try discriminate.
    rewrite (getTokenPrice_miss_parsed _ _ _ _ _ _ Hmiss Hres Hfound). simpl.
    split; [reflexivity|]. split; [apply lookup_insert_eq|].
    intros t Ht. apply getTokenPrice_hit. simpl.
    rewrite lookup_insert_eq. simpl.
    destruct (Z.ltb_spec (t - (clock s + Z.of_N (latency (oracle w (clock s) mint))))
                CACHE_TTL); [reflexivity|lia].
Qed.

(** C8, as the code has it.  Two calls for one id, the second starting
    after the first has returned and less than 30 s after it started, make
    one query at most, unless the first call runs into a query that throws
    (network error, non-OK response, a body that is not JSON or is
    [null]): then nothing is cached and both calls ask the oracle. *)
Theorem one_query_unless_first_fails (w : World) (mint : string)
    (s : State num) (t2 : Z) :
  let s1 := snd (getTokenPrice w mint s) in
  let s2 := snd (getTokenPrice w mint (at_time t2 s1)) in
  clock s1 <= t2 ->
  t2 - clock s < CACHE_TTL ->
  (first_query_fails w mint s = false -> queries_between s s2 <= 1)
  /\ (first_query_fails w mint s = true ->
      priceCache s1 = priceCache s /\ queries_between s s2 = 2).
Proof.
  intros s1 s2 Hseq Hwithin. subst s2. unfold queries_between, first_query_fails.
  rewrite getTokenPrice_queries.
  destruct (cache_hit (priceCache s !! mint) (clock s)) as [p|] eqn:Hhit.
  - (* the first call is served from the cache *)
    split; [intros _|discriminate]. subst s1.
    rewrite (getTokenPrice_hit _ _ _ _ Hhit). simpl.
    destruct (cache_hit _ t2); simpl; lia.
  - destruct (fetch_throws_or_parsed mint (result (oracle w (clock s) mint)))
      as [Hthrow|(status & j & found & Hres & Hfound)].
    + (* the first query throws *)
      rewrite Hthrow. split; [discriminate|intros _]. subst s1.
      rewrite (getTokenPrice_miss_throws _ _ _ Hhit Hthrow) in *. simpl in *.
      split; [reflexivity|].
      pose proof (cache_miss_later mint s (after_fetch w mint s) t2 Hhit eq_refl)
        as Hlater.
      unfold cache_miss in Hlater. simpl in Hlater. rewrite Hlater by lia.
      simpl. lia.
    + (* the first query stores a price *)
      assert (fetch_throws (result (oracle w (clock s) mint)) = false) as ->.
      { rewrite Hres. destruct j; [discriminate Hfound|reflexivity..]. }
      split; [intros _|discriminate]. subst s1.
      rewrite (getTokenPrice_miss_parsed _ _ _ _ _ _ Hhit Hres Hfound) in *.
      simpl in *. rewrite lookup_insert_eq. simpl.
      destruct (Z.ltb_spec (t2 - (clock s + Z.of_N (latency (oracle w (clock s) mint))))
                  CACHE_TTL); simpl; lia.
Qed.
End CacheClaims.

(** C2, as the spec words it, fails on a payload without a price: the
    fallback [1.0] is stored, and the next call is served from the cache. *)
Lemma missing_price_is_cached :
  ~ failure_leaves_cache_unset (num := PrimFloat.float)
      (w_answering no_price []) "mint_a" s_init.
Proof.
  intros Hclaim.
  destruct (Hclaim eq_refl eq_refl) as (_ & Hunset & _).
  vm_compute in Hunset. discriminate Hunset.
Qed.

Lemma fallback_price_and_cache_witness :
  cache_miss "mint_a" (s_init (num := PrimFloat.float))
  /\ getTokenPrice (w_offline []) "mint_a" s_init
     = (Ok (of_Q 1.0), after_fetch (w_offline []) "mint_a" s_init)
  /\ priceCache (snd (getTokenPrice (w_answering no_price []) "mint_a" s_init))
       !! "mint_a"
     = Some {| price := of_Q 1.0; timestamp := 1700000000005 |}.
Proof.
  split; [reflexivity|]. split.
  - apply (fallback_price_and_cache (w_offline []) "mint_a" s_init eq_refl).
    reflexivity.
  - apply (fallback_price_and_cache (w_answering no_price []) "mint_a" s_init eq_refl).
    reflexivity.
Defined.

(** C8, as the spec words it, fails when the oracle is down: two calls one
    second apart make two queries. *)
Lemma failed_query_is_repeated :
  ~ at_most_one_query (num := PrimFloat.float)
      (w_offline []) "mint_a" s_init 1700000001000.
Proof.
  intros Hclaim.
  assert (queries_between (num := PrimFloat.float) s_init
            (snd (getTokenPrice (w_offline []) "mint_a"
                    (at_time 1700000001000
                       (snd (getTokenPrice (w_offline []) "mint_a" s_init)))))
          <= 1) as Hcount.
  { apply Hclaim; vm_compute; [discriminate|reflexivity]. }
  vm_compute in Hcount. apply Hcount. reflexivity.
Qed.

Lemma one_query_unless_first_fails_witness :
  queries_between (num := PrimFloat.float) s_init
    (snd (getTokenPrice (w_answering priced []) "mint_a"
            (at_time 1700000001000
               (snd (getTokenPrice (w_answering priced []) "mint_a" s_init)))))
  <= 1
  /\ queries_between (num := PrimFloat.float) s_init
       (snd (getTokenPrice (w_offline []) "mint_a"
               (at_time 1700000001000
                  (snd (getTokenPrice (w_offline []) "mint_a" s_init)))))
     = 2.
Proof.
  split.
  - apply (one_query_unless_first_fails (w_answering priced []) "mint_a" s_init
             1700000001000); vm_compute; try reflexivity; discriminate.
  - apply (one_query_unless_first_fails (w_offline []) "mint_a" s_init
             1700000001000); vm_compute; try reflexivity; discriminate.
Defined.

(** ** Risk levels *)

Section RiskLevels.
Context {num : Type} `{!JSNumber num}.

Lemma calculateRiskLevel_thresholds (lower upper current : num) :
  calculateRiskLevel lower upper current
  = if high_risk lower upper current then High
    else if medium_risk lower upper current then Medium
    else Low.
Proof.
  unfold calculateRiskLevel, medium_risk, high_risk, rangePct, minDist.
  destruct (_ && _); reflexivity.
Qed.

Lemma processed_follows_thresholds (p : PositionData num) :
  processed p -> follows_thresholds p.
Proof.
  intros (_ & _ & _ & _ & Hrisk). unfold follows_thresholds.
  rewrite Hrisk, calculateRiskLevel_thresholds.
  assert (medium_risk (priceRangeLower p) (priceRangeUpper p) (currentPrice p) = true ->
          high_risk (priceRangeLower p) (priceRangeUpper p) (currentPrice p) = false)
    as Hexcl.
  { unfold medium_risk. destruct (high_risk _ _ _); [discriminate|reflexivity]. }
  destruct (high_risk _ _ _) eqn:Hhigh, (medium_risk _ _ _) eqn:Hmedium;
    try (specialize (Hexcl eq_refl); discriminate Hexcl);
    repeat split; intros; try discriminate; try reflexivity;
    destruct_and?; discriminate.
Qed.

(** C5, as the code has it.  When the ledger returns raw positions, every
    position of the answer has the [riskLevel] that the thresholds of §4.3b
    give its triple (lower, upper, current): High iff [rangePct < 0.05] and
    [minDist < 0.02]; Medium iff not High and ([rangePct < 0.05] or
    [minDist < 0.05]); Low otherwise; so two of them with the same triple
    carry the same level.  Otherwise the answer is the demo set, whose
    levels are the literals Low, Low, High. *)
Theorem risk_level_in_output (w : World) (walletAddress : string)
    (s s' : State num) (ps : list (PositionData num)) :
  getUserPositions w walletAddress s = (Ok ps, s') ->
  match ledger_positions w walletAddress with
  | Some (_ :: _) =>
      Forall follows_thresholds ps
      /\ forall p q, p ∈ ps -> q ∈ ps ->
           risk_triple p = risk_triple q -> riskLevel p = riskLevel q
  | _ =>
      ps = getMockPositions (clock s)
      /\ map riskLevel ps = [Low; Low; High]
  end.
Proof.
  intros Hrun.
  destruct (ledger_positions w walletAddress) as [[|raw raws]|] eqn:Hl.
  - rewrite getUserPositions_demo in Hrun by auto.
    injection Hrun as <- <-. split; reflexivity.
  - rewrite (getUserPositions_processed _ _ _ _ _ Hl) in Hrun.
    assert (Forall processed ps) as Hps.
    { eapply processAll_Forall; [|constructor|exact Hrun].
      intros. eapply processPosition_processed. eassumption. }
    split.
    + eapply Forall_impl; [exact Hps|]. apply processed_follows_thresholds.
    + intros p q Hp Hq Htriple. rewrite Forall_forall in Hps.
      destruct (Hps p Hp) as (_ & _ & _ & _ & ->).
      destruct (Hps q Hq) as (_ & _ & _ & _ & ->).
      unfold risk_triple in Htriple. injection Htriple as -> -> ->.
      reflexivity.
  - rewrite getUserPositions_demo in Hrun by auto.
    injection Hrun as <- <-. split; reflexivity.
Qed.
End RiskLevels.

(** C5, as the spec words it, fails on the demo set: mock_pos_1 is
    labelled Low, and the thresholds make its triple (95, 105, 100)
    Medium. *)
Lemma demo_levels_ignore_thresholds :
  ~ thresholds_hold_in_output (num := PrimFloat.float) (w_offline []) "wallet" s_init.
Proof.
  intros Hclaim.
  specialize (Hclaim _ _ eq_refl).
  apply Forall_inv in Hclaim. destruct Hclaim as (_ & _ & Hlow).
  destruct (proj1 Hlow eq_refl) as [_ Hmedium].
  vm_compute in Hmedium. discriminate Hmedium.
Qed.

(** The levels the thresholds give the three demo triples. *)
Lemma demo_levels_by_thresholds :
  map (fun p => calculateRiskLevel (priceRangeLower p) (priceRangeUpper p)
                  (currentPrice p))
      (getMockPositions (num := PrimFloat.float) 0)
  = [Medium; High; Medium]
  /\ map (fun p => calculateRiskLevel (priceRangeLower p) (priceRangeUpper p)
                     (currentPrice p))
         (getMockPositions (num := xnum) 0)
     = [Medium; High; Medium].
Proof. split; vm_compute; reflexivity. Qed.

Lemma risk_level_in_output_witness :
  exists (ps : list (PositionData PrimFloat.float)) (s' : State PrimFloat.float),
    getUserPositions (w_offline [one_token; withdrawn]) "wallet" s_init = (Ok ps, s')
    /\ length ps = 2%nat
    /\ Forall follows_thresholds ps.
Proof.
  eexists _, _. split; [vm_compute; reflexivity|]. split; [reflexivity|].
  eapply (risk_level_in_output (w_offline [one_token; withdrawn]) "wallet" s_init).
  vm_compute; reflexivity.
Defined.

(** ** Risk is monotone when the range shrinks (exact numbers) *)

Section Monotone.
Local Open Scope Q_scope.

Lemma xltb_Fin (a b : Q) : xltb (Fin a) (Fin b) = true <-> a < b.
Proof.
  simpl. rewrite Qlt_alt. destruct (a ?= b); split; congruence.
Qed.

Lemma xleb_Fin (a b : Q) : xleb (Fin a) (Fin b) = true <-> a <= b.
Proof.
  simpl. rewrite Qle_alt. destruct (a ?= b); split; congruence.
Qed.

Lemma xdiv_Fin (a b : Q) : ~ b == 0 -> xdiv (Fin a) (Fin b) = Fin (a / b).
Proof.
  intros Hb. simpl. destruct (Qeq_bool b 0) eqn:Hz; [|reflexivity].
  apply Qeq_bool_eq in Hz. contradiction.
Qed.

Lemma xmin_Fin (a b : Q) :
  exists m, xmin (Fin a) (Fin b) = Fin m
            /\ m <= a /\ m <= b /\ (m == a \/ m == b).
Proof.
  unfold xmin. simpl xis_nan. simpl orb.
  destruct (xleb (Fin a) (Fin b)) eqn:Hle.
  - apply xleb_Fin in Hle. exists a.
    split; [reflexivity|]. split; [apply Qle_refl|]. split; [exact Hle|].
    left. reflexivity.
  - exists b. assert (~ a <= b) as Hnle.
    { intros Hab. apply xleb_Fin in Hab. congruence. }
    apply Qnot_le_lt in Hnle.
    split; [reflexivity|]. split; [apply Qlt_le_weak; exact Hnle|].
    split; [apply Qle_refl|]. right. reflexivity.
Qed.

Lemma Qdiv_le_cross (a b c d : Q) :
  0 < b -> 0 < d -> a * d <= c * b -> a / b <= c / d.
Proof.
  intros Hb Hd Hcross. apply Qle_shift_div_r; [exact Hb|].
  assert (c / d * b == c * b / d) as -> by (field; lra).
  apply Qle_shift_div_l; [exact Hd|exact Hcross].
Qed.

(** The risk level as a function of the two exact ratios. *)
Lemma risk_by_ratios (l u c : Q) :
  0 < l -> 0 < u ->
  exists m,
    m <= (c - l) / l /\ m <= (u - c) / u
    /\ (m == (c - l) / l \/ m == (u - c) / u)
    /\ calculateRiskLevel (Fin l) (Fin u) (Fin c)
       = if xltb (Fin ((u - l) / l)) (Fin 0.05) && xltb (Fin m) (Fin 0.02) then High
         else if xltb (Fin ((u - l) / l)) (Fin 0.05) || xltb (Fin m) (Fin 0.05) then Medium
         else Low.
Proof.
  intros Hl Hu.
  destruct (xmin_Fin ((c - l) / l) ((u - c) / u)) as (m & Hmin & H1 & H2 & H3).
  exists m. repeat split; try assumption.
  unfold calculateRiskLevel. cbn [nsub nadd ndiv nmin nltb of_Q exact].
  unfold xsub. cbn [xopp xadd].
  rewrite !xdiv_Fin by lra.
  change (u + - l) with (u - l). change (c + - l) with (c - l).
  change (u + - c) with (u - c). rewrite Hmin. reflexivity.
Qed.

(** C9.  For [0 < lower <= current <= upper], raising [lower] towards
    [current] and lowering [upper] towards [current] never lowers the risk
    level in the order Low < Medium < High. *)
Theorem risk_monotone_under_shrinking (l u c l' u' : Q) :
  0 < l -> l <= l' -> l' <= c -> c <= u' -> u' <= u ->
  (severity (calculateRiskLevel (Fin l) (Fin u) (Fin c))
   <= severity (calculateRiskLevel (Fin l') (Fin u') (Fin c)))%Z.
Proof.
  intros Hl Hll' Hl'c Hcu' Hu'u.
  destruct (risk_by_ratios l u c) as (m & Hm1 & Hm2 & Hm & ->); [lra..|].
  destruct (risk_by_ratios l' u' c) as (m' & Hm'1 & Hm'2 & _ & ->); [lra..|].
  assert ((u' - l') / l' <= (u - l) / l) as Hrange.
  { apply Qdiv_le_cross; [lra..|]. nra. }
  assert (m' <= m) as Hdist.
  { destruct Hm as [-> | ->].
    - apply Qle_trans with ((c - l') / l'); [exact Hm'1|].
      apply Qdiv_le_cross; [lra..|]. nra.
    - apply Qle_trans with ((u' - c) / u'); [exact Hm'2|].
      apply Qdiv_le_cross; [lra..|]. nra. }
  assert (forall x y t, x <= y -> xltb (Fin y) (Fin t) = true ->
                        xltb (Fin x) (Fin t) = true) as Hdown.
  { intros x y t Hxy Hy. apply xltb_Fin. apply xltb_Fin in Hy. lra. }
  destruct (xltb (Fin ((u - l) / l)) (Fin 0.05)) eqn:Hr;
    [rewrite (Hdown _ _ _ Hrange Hr)|];
    (destruct (xltb (Fin m) (Fin 0.02)) eqn:Hm2';
       [rewrite (Hdown _ _ _ Hdist Hm2')|]);
    (destruct (xltb (Fin m) (Fin 0.05)) eqn:Hm5;
       [rewrite (Hdown _ _ _ Hdist Hm5)|]);
    repeat match goal with
           | |- context [xltb ?a ?b] => destruct (xltb a b)
           end; simpl; lia.
Qed.
End Monotone.

Lemma risk_monotone_under_shrinking_witness :
  (severity (calculateRiskLevel (Fin 90) (Fin 120) (Fin 100)) = 0
   /\ severity (calculateRiskLevel (Fin 99) (Fin 101) (Fin 100)) = 2)
  /\ severity (calculateRiskLevel (Fin 90) (Fin 120) (Fin 100))
     <= severity (calculateRiskLevel (Fin 99) (Fin 101) (Fin 100)).
Proof.
  split; [split; reflexivity|].
  apply (risk_monotone_under_shrinking 90 120 100 99 101);
    vm_compute; try reflexivity; discriminate.
Defined.

(** ** Profit of a processed position *)

Section Profit.
Context {num : Type} `{!JSNumber num}.
Local Open Scope js_scope.

End Profit.

Section ProfitExact.
Local Open Scope Q_scope.

Lemma or_default_not_infinite (found : option json) :
  not_infinite (or_default found (of_Q 1.0)).
Proof.
  destruct found as [[|q|fs]|]; simpl; try exact I.
  destruct (negb (Qeq_bool q 0)); exact I.
Qed.

Lemma getTokenPrice_not_infinite (w : World) (mint : string)
    (s s' : State xnum) (p : xnum) :
  cache_finite s ->
  getTokenPrice w mint s = (Ok p, s') ->
  not_infinite p /\ cache_finite s'.
Proof.
  intros Hinv Hrun.
  destruct (cache_hit (priceCache s !! mint) (clock s)) as [p0|] eqn:Hhit.
  - rewrite (getTokenPrice_hit _ _ _ _ Hhit) in Hrun. injection Hrun as <- <-.
    split; [|exact Hinv]. unfold cache_hit in Hhit.
    destruct (priceCache s !! mint) as [c|] eqn:Hc; [|discriminate].
    destruct (_ <? _)%Z; [|discriminate]. injection Hhit as <-.
    exact (Hinv _ _ Hc).
  - destruct (fetch_throws_or_parsed mint (result (oracle w (clock s) mint)))
      as [Hthrow|(status & j & found & Hres & Hfound)].
    + rewrite (getTokenPrice_miss_throws _ _ _ Hhit Hthrow) in Hrun.
      injection Hrun as <- <-. split; [exact I|exact Hinv].
    + rewrite (getTokenPrice_miss_parsed _ _ _ _ _ _ Hhit Hres Hfound) in Hrun.
      injection Hrun as <- <-. split; [apply or_default_not_infinite|].
      intros k e. simpl. rewrite lookup_insert.
      destruct (decide (mint = k)) as [_|_].
      * intros [= <-]. apply or_default_not_infinite.
      * apply Hinv.
Qed.

Lemma keeps_ret {A} (a : A) : keeps_cache_finite (ret a).
Proof. intros s o s' Hinv [= <- <-]. exact Hinv. Qed.

Lemma keeps_throw {A} (e : Error) : keeps_cache_finite (throw (A := A) e).
Proof. intros s o s' Hinv [= <- <-]. exact Hinv. Qed.

Lemma keeps_lift {A} (r : Outcome A) : keeps_cache_finite (lift r).
Proof. intros s o s' Hinv [= <- <-]. exact Hinv. Qed.

Lemma keeps_Date_now : keeps_cache_finite Date_now.
Proof. intros s o s' Hinv [= <- <-]. exact Hinv. Qed.

Lemma keeps_bind {A B} (m : M xnum A) (k : A -> M xnum B) :
  keeps_cache_finite m -> (forall a, keeps_cache_finite (k a)) ->
  keeps_cache_finite (bind m k).
Proof.
  intros Hm Hk s o s' Hinv. unfold bind.
  destruct (m s) as [[a|e] s1] eqn:Hrun.
  - apply Hk. exact (Hm _ _ _ Hinv Hrun).
  - intros [= <- <-]. exact (Hm _ _ _ Hinv Hrun).
Qed.

Lemma keeps_try_catch {A} (body : M xnum A) (handler : Error -> M xnum A) :
  keeps_cache_finite body -> (forall e, keeps_cache_finite (handler e)) ->
  keeps_cache_finite (try_catch body handler).
Proof.
  intros Hbody Hhandler s o s' Hinv. unfold try_catch.
  destruct (body s) as [[a|e] s1] eqn:Hrun.
  - intros [= <- <-]. exact (Hbody _ _ _ Hinv Hrun).
  - apply Hhandler. exact (Hbody _ _ _ Hinv Hrun).
Qed.

Lemma keeps_getTokenPrice (w : World) (mint : string) :
  keeps_cache_finite (getTokenPrice w mint).
Proof.
  intros s o s' Hinv Hrun.
  destruct (getTokenPrice_returns w mint s) as (p & s1 & Hok).
  rewrite Hok in Hrun. injection Hrun as <- <-.
  exact (proj2 (getTokenPrice_not_infinite _ _ _ _ _ Hinv Hok)).
Qed.

Ltac keeps_step :=
  first
    [ apply keeps_ret | apply keeps_throw | apply keeps_lift
    | apply keeps_Date_now | apply keeps_getTokenPrice
    | apply keeps_bind; [|intros ?; cbv beta]
    | apply keeps_try_catch; [|intros ?; cbv beta]
    | match goal with
      | |- keeps_cache_finite (match ?x with _ => _ end) => destruct x
      | |- keeps_cache_finite (if ?x then _ else _) => destruct x
      end ].

Lemma keeps_processPosition (w : World) (position : RawPosition) :
  keeps_cache_finite (processPosition w position).
Proof. unfold processPosition, calculateAPY, getPriceRange. repeat keeps_step. Qed.

Lemma keeps_processAll (w : World) (positions : list RawPosition) :
  forall acc : list (PositionData xnum),
    keeps_cache_finite (processAll w positions acc).
Proof.
  induction positions as [|position rest IH]; intros acc; simpl.
  - apply keeps_ret.
  - apply keeps_bind; [|intros acc'; apply IH].
    apply keeps_try_catch; [|intros e; apply keeps_ret].
    apply keeps_bind; [apply keeps_processPosition|intros p; apply keeps_ret].
Qed.


Lemma keeps_getUserPositions (w : World) (walletAddress : string) :
  keeps_cache_finite (getUserPositions w walletAddress).
Proof.
  unfold getUserPositions. repeat keeps_step. apply keeps_processAll.
Qed.






End ProfitExact.



(** ** The portfolio risk score *)

Section RiskScore.
Local Open Scope Q_scope.

Lemma riskScore_summary {num : Type} `{!JSNumber num} (now : Z)
    (positions : list (PositionData num)) :
  riskScore (getPortfolioSummary now positions) = calculatePortfolioRisk positions.
Proof.
  unfold getPortfolioSummary, calculatePortfolioRisk.
  destruct (length positions =? 0)%nat; reflexivity.
Qed.

Lemma sum_values (ps : list (PositionData xnum)) :
  Forall worth_nonneg ps ->
  forall acc, 0 <= acc ->
    exists t,
      foldl (fun sum x => nadd sum (currentValueUSD x)) (Fin acc) ps = Fin t
      /\ acc <= t
      /\ Forall (fun p => exists v, currentValueUSD p = Fin v
                                   /\ 0 <= v /\ acc + v <= t) ps.
Proof.
  induction 1 as [|p ps (v & Hv & Hpos) _ IH]; intros acc Hacc; simpl.
  - exists acc. split; [reflexivity|]. split; [lra|constructor].
  - rewrite Hv. cbn [nadd exact xadd].
    destruct (IH (acc + v)) as (t & Ht & Hle & Hall); [lra|].
    exists t. split; [exact Ht|]. split; [lra|]. constructor.
    + exists v. repeat split; [exact Hv|exact Hpos|exact Hle].
    + eapply Forall_impl; [exact Hall|].
      intros q (u & Hu & Hupos & Hule). exists u. repeat split; [exact Hu|exact Hupos|lra].
Qed.

Lemma max_values (t : Q) (ps : list (PositionData xnum)) :
  Forall (fun p => exists v, currentValueUSD p = Fin v /\ 0 <= v /\ 0 + v <= t) ps ->
  forall a, 0 <= a -> a <= t ->
    exists m, foldl nmax (Fin a) (map currentValueUSD ps) = Fin m
              /\ 0 <= m /\ m <= t.
Proof.
  induction 1 as [|p ps (v & Hv & Hpos & Hle) _ IH]; intros a Ha Hat; simpl.
  - exists a. auto.
  - rewrite Hv. cbn [nmax exact]. unfold xmax. cbn [xis_nan orb].
    destruct (xleb (Fin a) (Fin v)); apply IH; lra.
Qed.

Lemma ratio_bounds (a b c : Q) :
  0 <= a -> 0 <= c -> a <= c * b -> 0 < b -> 0 <= a / b /\ a / b <= c.
Proof.
  intros Ha Hc Hab Hb. split.
  - apply Qle_shift_div_l; [exact Hb|lra].
  - apply Qle_shift_div_r; [exact Hb|exact Hab].
Qed.

Lemma count_bounds {A} (p : A -> bool) (xs : list A) :
  0 <= inject_Z (Z.of_nat (count p xs))
  /\ inject_Z (Z.of_nat (count p xs)) <= inject_Z (Z.of_nat (length xs)).
Proof.
  unfold count. rewrite <- (Zle_Qle 0), <- Zle_Qle.
  pose proof (length_filter (fun x => p x = true) xs). lia.
Qed.

(** On a portfolio of non-negative values with a positive total, the
    risk score is a number between 0 and 100 (exact numbers). *)
Lemma risk_score_within_bounds (now : Z) (ps : list (PositionData xnum)) :
  Forall worth_nonneg ps ->
  Exists worth_positive ps ->
  exists r, riskScore (getPortfolioSummary now ps) = Fin r /\ 0 <= r /\ r <= 100.
Proof.
  intros Hnonneg Hpositive. rewrite riskScore_summary.
  unfold calculatePortfolioRisk.
  destruct ps as [|p0 ps0] eqn:Hps; [inversion Hpositive|]. rewrite <- Hps in *.
  assert ((length ps =? 0)%nat = false) as -> by (rewrite Hps; reflexivity).
  assert (0 < inject_Z (Z.of_nat (length ps))) as Hlen.
  { rewrite <- (Zlt_Qlt 0). rewrite Hps. simpl length. lia. }
  destruct (sum_values ps Hnonneg 0) as (t & Hsum & _ & Hall); [lra|].
  assert (0 < t) as Ht.
  { apply Exists_exists in Hpositive as (p & Hin & v & Hv & Hvpos).
    rewrite Forall_forall in Hall.
    destruct (Hall p Hin) as (v' & Hv' & _ & Hle).
    rewrite Hv in Hv'. injection Hv' as <-. lra. }
  assert (exists m, nmax_list (map currentValueUSD ps) = Fin m /\ 0 <= m /\ m <= t)
    as (m & Hmax & Hm0 & Hmt).
  { unfold nmax_list. rewrite Hps in *. simpl.
    apply Forall_cons in Hall as [(v & Hv & Hvpos & Hvt) Hall].
    rewrite Hv. cbn [nmax neg_infinity exact]. unfold xmax. cbn [xis_nan orb xleb].
    apply (max_values t ps0 Hall); lra. }
  unfold sum_by. change (of_Z (num := xnum) 0) with (Fin 0). rewrite Hsum, Hmax.
  set (k := count (fun pos => negb (inRange pos)) ps).
  set (h := count (fun pos => bool_decide (riskLevel pos = High)) ps).
  set (d := count (fun pos => bool_decide (riskLevel pos = Medium)) ps).
  destruct (count_bounds (fun pos => negb (inRange pos)) ps) as [Hk0 Hkn].
  destruct (count_bounds (fun pos => bool_decide (riskLevel pos = High)) ps) as [Hh0 Hhn].
  destruct (count_bounds (fun pos => bool_decide (riskLevel pos = Medium)) ps) as [Hd0 Hdn].
  fold k in Hk0, Hkn. fold h in Hh0, Hhn. fold d in Hd0, Hdn.
  unfold of_nat, of_Z. cbn [of_Q nadd nmul ndiv nmin nround exact].
  set (n := inject_Z (Z.of_nat (length ps))) in *.
  cbn [xmul xadd]. rewrite !xdiv_Fin by lra. cbn [xmul xadd].
  destruct (ratio_bounds m t 1) as [Hc0 Hc1]; [lra..|].
  destruct (ratio_bounds (inject_Z (Z.of_nat k)) n 1) as [Ho0 Ho1]; [lra..|].
  destruct (ratio_bounds (inject_Z (Z.of_nat h) * inject_Z 10
                          + inject_Z (Z.of_nat d) * inject_Z 5) n 15)
    as [Hi0 Hi1]; [unfold inject_Z in *; lra..|].
  match goal with
  | |- context [xmin (Fin ?a) (Fin ?b)] =>
      destruct (xmin_Fin a b) as (x & -> & Hxa & Hxb & Hx)
  end.
  cbn [xround]. eexists. split; [reflexivity|].
  assert (0 <= x /\ x <= 100) as [Hx0 Hx100].
  { unfold inject_Z in *. destruct Hx as [Hx|Hx]; rewrite Hx; split; nra. }
  rewrite <- (Zle_Qle 0), <- (Zle_Qle _ 100).
  split.
  - change 0%Z with (Qfloor 0). apply Qfloor_resp_le. lra.
  - change 100%Z with (Qfloor (100 + (1 # 2))). apply Qfloor_resp_le. lra.
Qed.
End RiskScore.

(** C4 on the code.  A wallet whose only position holds no liquidity is
    processed into a position worth [0]; for that portfolio
    [calculatePortfolioRisk] divides [0] by [0], and the summary's
    [riskScore] is [NaN], which is not between 0 and 100.  First on the
    binary64 numbers of the service, then on the exact numbers. *)
Theorem risk_score_of_worthless_portfolio :
  (exists (ps : list (PositionData PrimFloat.float)) (s' : State PrimFloat.float),
      getUserPositions (w_offline [withdrawn]) "wallet" s_init = (Ok ps, s')
      /\ map currentValueUSD ps = [of_Z 0]
      /\ PrimFloat.is_nan (riskScore (getPortfolioSummary (clock s') ps)) = true
      /\ within_0_100 (riskScore (getPortfolioSummary (clock s') ps)) = false)
  /\ (exists (ps : list (PositionData xnum)) (s' : State xnum),
         getUserPositions (w_offline [withdrawn]) "wallet" s_init = (Ok ps, s')
         /\ Forall (fun p => xeq (currentValueUSD p) (Fin 0)) ps
         /\ riskScore (getPortfolioSummary (clock s') ps) = NaN
         /\ within_0_100 (riskScore (getPortfolioSummary (clock s') ps)) = false).
Proof.
  split.
  - eexists _, _. split; [vm_compute; reflexivity|].
    repeat split; vm_compute; reflexivity.
  - eexists _, _. split; [vm_compute; reflexivity|].
    split; [repeat constructor|split; vm_compute; reflexivity].
Qed.

(** * Further properties of the service *)

(** ** The summary's counts and averages *)

Section SummaryFacts.
Context {num : Type} `{!JSNumber num}.

Lemma count_complement {A} (p : A -> bool) (xs : list A) :
  (count p xs + count (fun x => negb (p x)) xs = length xs)%nat.
Proof.
  unfold count. induction xs as [|x xs IH]; [reflexivity|].
  rewrite !filter_cons. destruct (p x); simpl;
    repeat case_decide; try congruence; simpl; lia.
Qed.

(** X1.  The summary counts every position once: [activePositions] is the
    length of the input, [outOfRangePositions] (computed by subtraction) is
    the number of positions that are not in range, and the two range counts
    add up to [activePositions]. *)
Theorem summary_counts (now : Z) (positions : list (PositionData num)) :
  activePositions (getPortfolioSummary now positions) = length positions
  /\ outOfRangePositions (getPortfolioSummary now positions)
     = count (fun pos => negb (inRange pos)) positions
  /\ (inRangePositions (getPortfolioSummary now positions)
      + outOfRangePositions (getPortfolioSummary now positions)
      = activePositions (getPortfolioSummary now positions))%nat.
Proof.
  pose proof (count_complement inRange positions) as Hsplit.
  unfold getPortfolioSummary.
  destruct positions as [|p ps]; [repeat split; reflexivity|].
  cbn [length Nat.eqb activePositions inRangePositions outOfRangePositions].
  cbn [length] in Hsplit. repeat split; lia.
Qed.
End SummaryFacts.

(** X2.  [averageAPY] is never [NaN]: the [|| 0] of the source replaces the
    [0 / 0] of a portfolio without value.  On the exact numbers, then on
    binary64. *)
Theorem average_apy_is_a_number :
  (forall (now : Z) (positions : list (PositionData xnum)),
      averageAPY (getPortfolioSummary now positions) <> NaN)
  /\ (forall (now : Z) (positions : list (PositionData PrimFloat.float)),
         PrimFloat.is_nan (averageAPY (getPortfolioSummary now positions)) = false).
Proof.
  split; intros now positions; unfold getPortfolioSummary;
    destruct (length positions =? 0)%nat; cbn [averageAPY getEmptyPortfolioSummary].
  - discriminate.
  - destruct (truthy _) eqn:Htruthy; [|discriminate].
    intros Hnan. rewrite Hnan in Htruthy. discriminate Htruthy.
  - vm_compute. reflexivity.
  - destruct (truthy _) eqn:Htruthy; [|vm_compute; reflexivity].
    cbn [truthy binary64] in Htruthy. unfold B64.truthy in Htruthy.
    destruct (PrimFloat.is_nan _); [discriminate Htruthy|reflexivity].
Qed.

(** ** The yield of a position *)


Section Yield.
Local Open Scope Q_scope.





End Yield.

(** ** Token amounts and active bins *)

Section TokenAmounts.
Local Open Scope Q_scope.

(** The body of the loop of [calculateTokenAmounts]. *)
Let amounts_step (acc : Outcome (xnum * xnum)) (bin : Bin)
  : Outcome (xnum * xnum) :=
  match acc with
  | Throw e => Throw e
  | Ok (tokenXAmount, tokenYAmount) =>
      match add_amount tokenXAmount (bin_tokenXAmount bin) with
      | Throw e => Throw e
      | Ok tokenXAmount' =>
          match add_amount tokenYAmount (bin_tokenYAmount bin) with
          | Throw e => Throw e
          | Ok tokenYAmount' => Ok (tokenXAmount', tokenYAmount')
          end
      end
  end.

Lemma calculateTokenAmounts_fold (position : RawPosition) :
  calculateTokenAmounts position
  = foldl amounts_step (Ok (Fin 0, Fin 0)) (position_bins position).
Proof.
  unfold calculateTokenAmounts, position_bins.
  destruct (raw_bins position); reflexivity.
Qed.

Lemma add_amount_fits (t : Q) (amount : option Z) :
  from_option fits53 true amount = true ->
  exists t',
    add_amount (Fin t) amount = Ok (Fin t')
    /\ t' == t + inject_Z (default 0%Z amount) / inject_Z 1000000.
Proof.
  destruct amount as [bn|]; simpl; intros Hfits.
  - unfold toNumber. unfold fits53 in Hfits. rewrite Hfits.
    eexists. split; [reflexivity|]. reflexivity.
  - exists t. split; [reflexivity|]. unfold inject_Z. field.
Qed.



Lemma amounts_fold_fits (bins : list Bin) :
  forallb bin_fits bins = true ->
  forall a b, exists a' b',
    foldl amounts_step (Ok (Fin a, Fin b)) bins = Ok (Fin a', Fin b')
    /\ a' == a + inject_Z (sum_amounts bin_tokenXAmount bins) / inject_Z 1000000
    /\ b' == b + inject_Z (sum_amounts bin_tokenYAmount bins) / inject_Z 1000000.
Proof.
  induction bins as [|bin bins IH]; intros Hfits a b.
  - exists a, b. split; [reflexivity|]. unfold inject_Z. simpl. split; field.
  - simpl in Hfits. apply andb_prop in Hfits as [Hbin Hrest].
    unfold bin_fits in Hbin. apply andb_prop in Hbin as [Hx Hy].
    destruct (add_amount_fits a _ Hx) as (a1 & Ha1 & Hsum1).
    destruct (add_amount_fits b _ Hy) as (b1 & Hb1 & Hsum2).
    destruct (IH Hrest a1 b1) as (a' & b' & Hfold & Ha' & Hb').
    exists a', b'. split.
    + simpl. rewrite Ha1, Hb1. exact Hfold.
    + simpl sum_amounts. rewrite !inject_Z_plus, Ha', Hb', Hsum1, Hsum2.
      split; field.
Qed.



Lemma inactive_bins_hold_nothing (bins : list Bin) :
  length (filter (fun bin => bin_active bin = true) bins) = 0%nat ->
  forallb bin_nonneg bins = true ->
  forallb bin_fits bins = true
  /\ sum_amounts bin_tokenXAmount bins = 0%Z
  /\ sum_amounts bin_tokenYAmount bins = 0%Z.
Proof.
  induction bins as [|bin bins IH]; [repeat split; reflexivity|].
  rewrite filter_cons. simpl forallb. simpl sum_amounts.
  intros Hcount Hnonneg. apply andb_prop in Hnonneg as [Hbin Hrest].
  case_decide as Hactive; [discriminate Hcount|].
  destruct (IH Hcount Hrest) as (Hfits & Hx & Hy). rewrite Hfits, Hx, Hy.
  unfold bin_active in Hactive. unfold bin_nonneg in Hbin. unfold bin_fits, fits53.
  destruct (bin_tokenXAmount bin) as [x|], (bin_tokenYAmount bin) as [y|];
    simpl in *;
    repeat match goal with
           | H : context [(?a <? ?b)%Z] |- _ => destruct (Z.ltb_spec a b)
           | H : context [(?a <=? ?b)%Z] |- _ => destruct (Z.leb_spec a b)
           end; simpl in *; try congruence; try discriminate;
    repeat split; try lia;
    repeat match goal with
           | |- context [(Z.abs ?a <? ?b)%Z] =>
               destruct (Z.ltb_spec (Z.abs a) b); simpl; try reflexivity; try lia
           end.
Qed.

(** X5.  A position that counts no active bin, and whose amounts are not
    negative, holds no tokens: [calculateTokenAmounts] answers zero for
    both. *)
Theorem no_active_bin_no_tokens (position : RawPosition) :
  countActiveBins position = 0%nat ->
  forallb bin_nonneg (position_bins position) = true ->
  exists x y,
    calculateTokenAmounts position = Ok (Fin x, Fin y) /\ x == 0 /\ y == 0.
Proof.
  intros Hcount Hnonneg.
  assert (length (filter (fun bin => bin_active bin = true) (position_bins position))
          = 0%nat) as Hnone.
  { unfold countActiveBins in Hcount. unfold position_bins.
    destruct (raw_bins position); [exact Hcount|reflexivity]. }
  destruct (inactive_bins_hold_nothing _ Hnone Hnonneg) as (Hfits & Hx & Hy).
  rewrite calculateTokenAmounts_fold.
  destruct (amounts_fold_fits _ Hfits 0 0) as (a & b & -> & Ha & Hb).
  exists a, b. split; [reflexivity|]. rewrite Ha, Hb, Hx, Hy.
  unfold inject_Z. split; field.
Qed.
End TokenAmounts.

Lemma no_active_bin_no_tokens_witness :
  countActiveBins emptied = 0%nat
  /\ exists x y,
       calculateTokenAmounts emptied = Ok (Fin x, Fin y) /\ (x == 0)%Q /\ (y == 0)%Q.
Proof.
  split; [reflexivity|].
  apply (no_active_bin_no_tokens emptied); reflexivity.
Defined.

(** ** The facade never throws and keeps the ledger's order *)

Section FacadeFacts.
Context {num : Type} `{!JSNumber num}.

(** X6.  No call of the service throws: [getUserPositions] returns a list
    whatever the address, the ledger and the oracle do, and [getTokenPrice]
    returns a price, having asked the oracle at most once. *)
Theorem service_calls_never_throw (w : World) (s : State num) :
  (forall walletAddress,
     exists ps s', getUserPositions w walletAddress s = (Ok ps, s'))
  /\ (forall mint,
        exists p s',
          getTokenPrice w mint s = (Ok p, s')
          /\ (queries s' = queries s \/ queries s' = mint :: queries s)).
Proof.
  split.
  - intros walletAddress. apply getUserPositions_returns.
  - intros mint. destruct (getTokenPrice_returns w mint s) as (p & s' & Hrun).
    exists p, s'. split; [exact Hrun|].
    pose proof (getTokenPrice_queries w mint s) as Hq. rewrite Hrun in Hq.
    simpl in Hq. rewrite Hq. destruct (cache_hit _ _); auto.
Qed.




Lemma processPosition_pool_missing (w : World) (position : RawPosition)
    (s : State num) :
  pool_missing w position ->
  exists e, processPosition w position s = (Throw e, s).
Proof.
  unfold pool_missing, processPosition, try_catch, bind, lift, throw.
  intros [-> | ->]; eauto.
Qed.

(** X8.  When the ledger returns raw positions and the pool of every one of
    them cannot be resolved, the answer is the empty list, not the demo
    set, and neither the cache nor the oracle is touched. *)
Theorem unresolved_pools_give_empty_answer (w : World) (walletAddress : string)
    (s : State num) (raw : RawPosition) (raws : list RawPosition) :
  ledger_positions w walletAddress = Some (raw :: raws) ->
  Forall (pool_missing w) (raw :: raws) ->
  getUserPositions w walletAddress s = (Ok [], s).
Proof.
  intros Hl Hmissing. rewrite (getUserPositions_processed _ _ _ _ _ Hl).
  clear Hl. induction Hmissing as [|position rest Hposition _ IH]; [reflexivity|].
  simpl. unfold bind at 1, try_catch, bind at 1.
  destruct (processPosition_pool_missing w position s Hposition) as (e & ->).
  exact IH.
Qed.
End FacadeFacts.


Lemma unresolved_pools_give_empty_answer_witness :
  getUserPositions (num := PrimFloat.float) (w_offline [orphan; orphan]) "wallet" s_init
  = (Ok [], s_init).
Proof.
  apply (unresolved_pools_give_empty_answer (w_offline [orphan; orphan]) "wallet"
           s_init orphan [orphan]); [reflexivity|].
  repeat constructor; right; reflexivity.
Defined.

(** ** The price cache: frame, expiry, growth *)

Section CacheFacts.
Context {num : Type} `{!JSNumber num}.
Local Open Scope js_scope.

(** The three ways a call of [getTokenPrice] ends. *)
Lemma getTokenPrice_cases (w : World) (mint : string) (s : State num) :
  (exists p, cache_hit (priceCache s !! mint) (clock s) = Some p
             /\ getTokenPrice w mint s = (Ok p, s))
  \/ (cache_miss mint s
      /\ getTokenPrice w mint s = (Ok (of_Q 1.0), after_fetch w mint s))
  \/ (cache_miss mint s
      /\ exists found,
           getTokenPrice w mint s
           = (Ok (or_default found (of_Q 1.0)),
              {| priceCache :=
                   <[mint := {| price := or_default found (of_Q 1.0);
                                timestamp := clock (after_fetch w mint s) |}]>
                     (priceCache s);
                 clock := clock (after_fetch w mint s);
                 queries := mint :: queries s |})).
Proof.
  destruct (cache_hit (priceCache s !! mint) (clock s)) as [p|] eqn:Hhit.
  - left. exists p. split; [reflexivity|]. apply getTokenPrice_hit. exact Hhit.
  - right.
    destruct (fetch_throws_or_parsed mint (result (oracle w (clock s) mint)))
      as [Hthrow|(status & j & found & Hres & Hfound)].
    + left. split; [exact Hhit|]. apply getTokenPrice_miss_throws; assumption.
    + right. split; [exact Hhit|]. exists found.
      eapply getTokenPrice_miss_parsed; eassumption.
Qed.

(** X9.  A call of [getTokenPrice] for one mint leaves the cache entry of every
    other mint as it was. *)
Theorem price_cache_frame (w : World) (mint other : string) (s : State num) :
  other <> mint ->
  priceCache (snd (getTokenPrice w mint s)) !! other = priceCache s !! other.
Proof.
  intros Hother.
  destruct (getTokenPrice_cases w mint s)
    as [(p & _ & ->)|[(_ & ->)|(_ & found & ->)]]; simpl; try reflexivity.
  apply lookup_insert_ne. congruence.
Qed.

(** X10.  An entry of the cache is served, without a query and without touching
    the state, exactly while its age is below 30000 ms; from 30000 ms on
    the call queries the oracle, once. *)
Theorem cached_price_expires_after_ttl (w : World) (mint : string)
    (s : State num) (c : CacheEntry num) :
  priceCache s !! mint = Some c ->
  (clock s - timestamp c < 30000 ->
   getTokenPrice w mint s = (Ok (price c), s))
  /\ (30000 <= clock s - timestamp c ->
      queries (snd (getTokenPrice w mint s)) = mint :: queries s).
Proof.
  intros Hc. split; intros Hage.
  - apply getTokenPrice_hit. rewrite Hc. unfold cache_hit, CACHE_TTL.
    apply Z.ltb_lt in Hage. rewrite Hage. reflexivity.
  - apply getTokenPrice_miss_queries. unfold cache_miss. rewrite Hc.
    unfold cache_hit, CACHE_TTL. apply Z.ltb_ge in Hage. rewrite Hage.
    reflexivity.
Qed.

Lemma state_extends_refl (s : State num) : state_extends s s.
Proof. unfold state_extends. split; [lia|]. split; [reflexivity|auto]. Qed.

Lemma state_extends_trans (s1 s2 s3 : State num) :
  state_extends s1 s2 -> state_extends s2 s3 -> state_extends s1 s3.
Proof.
  intros (Hc1 & Hq1 & Hk1) (Hc2 & Hq2 & Hk2). split; [lia|].
  split; [etrans; eassumption|auto].
Qed.

Lemma extends_ret {A} (a : A) : only_extends (num := num) (ret a).
Proof. intros s o s' [= <- <-]. apply state_extends_refl. Qed.

Lemma extends_throw {A} (e : Error) : only_extends (num := num) (A := A) (throw e).
Proof. intros s o s' [= <- <-]. apply state_extends_refl. Qed.

Lemma extends_lift {A} (o : Outcome A) : only_extends (num := num) (lift o).
Proof. intros s o' s' [= <- <-]. apply state_extends_refl. Qed.

Lemma extends_Date_now : only_extends (num := num) Date_now.
Proof. intros s o s' [= <- <-]. apply state_extends_refl. Qed.

Lemma extends_bind {A B} (m : M num A) (k : A -> M num B) :
  only_extends m -> (forall a, only_extends (k a)) -> only_extends (bind m k).
Proof.
  intros Hm Hk s o s' Hrun. unfold bind in Hrun.
  destruct (m s) as [[a|e] s1] eqn:Hms.
  - eapply state_extends_trans; [eapply Hm; exact Hms|eapply Hk; exact Hrun].
  - injection Hrun as <- <-. eapply Hm. exact Hms.
Qed.

Lemma extends_try_catch {A} (body : M num A) (handler : Error -> M num A) :
  only_extends body -> (forall e, only_extends (handler e)) ->
  only_extends (try_catch body handler).
Proof.
  intros Hb Hh s o s' Hrun. unfold try_catch in Hrun.
  destruct (body s) as [[a|e] s1] eqn:Hbs.
  - injection Hrun as <- <-. eapply Hb. exact Hbs.
  - eapply state_extends_trans; [eapply Hb; exact Hbs|eapply Hh; exact Hrun].
Qed.

Lemma extends_getTokenPrice (w : World) (mint : string) :
  only_extends (getTokenPrice w mint).
Proof.
  intros s o s' Hrun.
  assert (Hfetch : state_extends s (after_fetch w mint s)).
  { split; [simpl; lia|]. split; [|auto]. simpl. apply suffix_cons_r. reflexivity. }
  destruct (getTokenPrice_cases w mint s)
    as [(p & _ & Heq)|[(_ & Heq)|(_ & found & Heq)]];
    rewrite Heq in Hrun; injection Hrun as <- <-.
  - apply state_extends_refl.
  - exact Hfetch.
  - destruct Hfetch as (Hc & Hq & Hk). split; [exact Hc|]. split; [exact Hq|].
    simpl. intros k Hin. destruct (decide (k = mint)) as [->|Hne].
    + rewrite lookup_insert_eq. eauto.
    + rewrite lookup_insert_ne by congruence. exact Hin.
Qed.

Lemma extends_calculateAPY (position : RawPosition) (feesUSD initialUSD : num) :
  only_extends (calculateAPY position feesUSD initialUSD).
Proof.
  unfold calculateAPY. apply extends_try_catch; [|intros; apply extends_ret].
  destruct (initialUSD <=? of_Z 0); [apply extends_ret|].
  apply extends_bind; [apply extends_Date_now|intros t].
  apply extends_bind; [apply extends_Date_now|intros now].
  match goal with |- context [if ?b then _ else _] => destruct b end;
    apply extends_ret.
Qed.

Lemma extends_processPosition (w : World) (position : RawPosition) :
  only_extends (processPosition w position).
Proof.
  unfold processPosition.
  apply extends_try_catch; [|intros; apply extends_throw].
  apply extends_bind; [apply extends_lift|intros [lbPair|]];
    [|apply extends_throw].
  apply extends_bind; [apply extends_lift|intros [tokenXAmount tokenYAmount]].
  apply extends_bind; [apply extends_getTokenPrice|intros tokenXPrice].
  apply extends_bind; [apply extends_getTokenPrice|intros tokenYPrice].
  apply extends_bind; [apply extends_calculateAPY|intros apy].
  unfold getPriceRange.
  apply extends_bind; [apply extends_Date_now|intros now].
  apply extends_bind; [apply extends_lift|intros feeTier].
  apply extends_ret.
Qed.

Lemma extends_processAll (w : World) (positions : list RawPosition) :
  forall acc, only_extends (processAll w positions acc).
Proof.
  induction positions as [|position rest IH]; intros acc; simpl.
  - apply extends_ret.
  - apply extends_bind; [|intros; apply IH].
    apply extends_try_catch; [|intros; apply extends_ret].
    apply extends_bind; [apply extends_processPosition|intros; apply extends_ret].
Qed.

Lemma extends_getUserPositions (w : World) (walletAddress : string) :
  only_extends (getUserPositions w walletAddress).
Proof.
  unfold getUserPositions. apply extends_try_catch.
  - apply extends_bind; [apply extends_lift|intros userPubkey].
    apply extends_bind; [apply extends_lift|intros positions].
    destruct (length positions =? 0)%nat; [|apply extends_processAll].
    apply extends_bind; [apply extends_Date_now|intros; apply extends_ret].
  - intros e.
    apply extends_bind; [apply extends_Date_now|intros; apply extends_ret].
Qed.

(** X11.  Whatever the ledger and the oracle do, a call of [getUserPositions],
    [processPosition] or [getTokenPrice] never turns the clock back, never
    drops a logged query and never removes a cache entry. *)
Theorem service_state_only_grows (w : World) (s : State num) :
  (forall walletAddress,
     state_extends s (snd (getUserPositions w walletAddress s)))
  /\ (forall position, state_extends s (snd (processPosition w position s)))
  /\ (forall mint, state_extends s (snd (getTokenPrice w mint s))).
Proof.
  split; [|split]; intros x.
  - eapply extends_getUserPositions. apply surjective_pairing.
  - eapply extends_processPosition. apply surjective_pairing.
  - eapply extends_getTokenPrice. apply surjective_pairing.
Qed.
End CacheFacts.

Lemma price_cache_frame_witness :
  priceCache (snd (getTokenPrice (num := PrimFloat.float)
                     (w_answering priced []) "mint_b" (s_cached 0)))
    !! "mint_a"
  = priceCache (s_cached (num := PrimFloat.float) 0) !! "mint_a".
Proof.
  apply (price_cache_frame (w_answering priced []) "mint_b" "mint_a" (s_cached 0)).
  discriminate.
Defined.

Lemma cached_price_expires_after_ttl_witness :
  queries (snd (getTokenPrice (num := PrimFloat.float) (w_answering priced [])
                  "mint_a" (s_cached (1700000000000 - 30000))))
  = ["mint_a"]
  /\ getTokenPrice (num := PrimFloat.float) (w_answering priced [])
       "mint_a" (s_cached (1700000000000 - 29999))
     = (Ok (of_Q 2.5), s_cached (1700000000000 - 29999)).
Proof.
  split.
  - apply (cached_price_expires_after_ttl (w_answering priced []) "mint_a"
             (s_cached (1700000000000 - 30000))
             {| price := of_Q 2.5; timestamp := 1700000000000 - 30000 |});
      [reflexivity|vm_compute; discriminate].
  - apply (cached_price_expires_after_ttl (w_answering priced []) "mint_a"
             (s_cached (1700000000000 - 29999))
             {| price := of_Q 2.5; timestamp := 1700000000000 - 29999 |});
      [reflexivity|vm_compute; reflexivity].
Defined.

(** ** The price is never zero *)

Section PriceNonzero.
Local Open Scope js_scope.

Lemma or_default_nonzero (found : option json) :
  price_nonzero (or_default found (of_Q 1.0)).
Proof.
  destruct found as [[|q|fields]|]; simpl; try (intros Hq; discriminate Hq).
  - destruct (Qeq_bool q 0) eqn:Hq; simpl.
    + intros H0; discriminate H0.
    + intros H0. apply Qeq_bool_neq in Hq. contradiction.
  - exact I.
Qed.

(** X12.  Started from a cache that holds no zero price, [getTokenPrice] never
    returns 0 and never stores 0: a quoted price of 0 is replaced by 1.0
    before it is cached, like a missing one. *)
Theorem price_is_never_zero (w : World) (mint : string) (s s' : State xnum)
    (p : xnum) :
  cache_nonzero s ->
  getTokenPrice w mint s = (Ok p, s') ->
  price_nonzero p /\ cache_nonzero s'.
Proof.
  intros Hs Hrun.
  destruct (getTokenPrice_cases w mint s)
    as [(p0 & Hhit & Heq)|[(_ & Heq)|(_ & found & Heq)]];
    rewrite Heq in Hrun; injection Hrun as <- <-.
  - split; [|exact Hs]. unfold cache_hit in Hhit.
    destruct (priceCache s !! mint) as [c|] eqn:Hc; [|discriminate].
    destruct (clock s - timestamp c <? CACHE_TTL)%Z; [|discriminate].
    injection Hhit as <-. eapply Hs. exact Hc.
  - split; [intros H0; discriminate H0|exact Hs].
  - split; [apply or_default_nonzero|].
    intros k e. simpl. destruct (decide (k = mint)) as [->|Hne].
    + rewrite lookup_insert_eq. intros [= <-]. apply or_default_nonzero.
    + rewrite lookup_insert_ne by congruence. apply Hs.
Qed.
End PriceNonzero.

Lemma price_is_never_zero_witness :
  exists s',
    getTokenPrice (w_answering free_of_charge []) "mint_a" s_init
    = (Ok (Fin 1.0), s')
    /\ priceCache s' !! "mint_a"
       = Some {| price := Fin 1.0; timestamp := 1700000000005 |}
    /\ price_nonzero (Fin 1.0) /\ cache_nonzero s'.
Proof.
  eexists. split; [vm_compute; reflexivity|]. split; [reflexivity|].
  apply (price_is_never_zero (w_answering free_of_charge []) "mint_a" s_init);
    [|vm_compute; reflexivity].
  intros mint e He. unfold s_init in He. simpl in He.
  rewrite lookup_empty in He. discriminate He.
Defined.

(** ** The rating of a processed position *)

Section Rating.
Context {num : Type} `{!JSNumber num}.
Local Open Scope js_scope.


Lemma wide_range_is_not_high (lower upper current : num) :
  ((upper - lower) / lower <? of_Q 0.05) = false ->
  calculateRiskLevel lower upper current <> High.
Proof.
  unfold calculateRiskLevel. intros ->. simpl.
  destruct (_ <? _); discriminate.
Qed.
End Rating.

Section RatingExact.
Local Open Scope Q_scope.


End RatingExact.


(** X14.  What the service computes on binary64 numbers: a position it has
    processed is never rated High, since the placeholder range
    (1.1 - 0.9) / 0.9 is not below 0.05; only the demo set carries a High. *)
Theorem ledger_answer_is_never_high (w : World) (walletAddress : string)
    (s s' : State PrimFloat.float) (raw : RawPosition) (raws : list RawPosition)
    (ps : list (PositionData PrimFloat.float)) :
  ledger_positions w walletAddress = Some (raw :: raws) ->
  getUserPositions w walletAddress s = (Ok ps, s') ->
  Forall (fun p => riskLevel p <> High) ps.
Proof.
  intros Hl Hrun. rewrite (getUserPositions_processed _ _ _ _ _ Hl) in Hrun.
  eapply processAll_Forall; [|constructor|exact Hrun].
  intros position s1 s2 p Hp. simpl.
  destruct (processPosition_processed _ _ _ _ _ Hp)
    as (_ & _ & Hlower & Hupper & ->).
  rewrite Hlower, Hupper. apply wide_range_is_not_high.
  vm_compute. reflexivity.
Qed.

Lemma ledger_answer_is_never_high_witness :
  exists (ps : list (PositionData PrimFloat.float)) (s' : State PrimFloat.float),
    getUserPositions (w_answering priced [one_token; withdrawn]) "wallet" s_init
    = (Ok ps, s')
    /\ map riskLevel ps = [Low; Low]
    /\ Forall (fun p => riskLevel p <> High) ps.
Proof.
  eexists _, _. split; [vm_compute; reflexivity|]. split; [reflexivity|].
  eapply (ledger_answer_is_never_high
            (w_answering priced [one_token; withdrawn]) "wallet" s_init);
    [reflexivity|vm_compute; reflexivity].
Defined.

(** ** The portfolio summary *)

Section SummaryExact.
Local Open Scope Q_scope.

Lemma xround_whole (a : xnum) (r : Q) :
  xround a = Fin r -> exists z, r = inject_Z z.
Proof. destruct a; simpl; intros [= <-]. eauto. Qed.

(** X15.  On a portfolio of non-negative values with a positive total, the risk
    score of the summary is a whole number between 0 and 100 (exact
    numbers): the range its documentation promises. *)
Theorem risk_score_is_whole_percentage (now : Z) (ps : list (PositionData xnum)) :
  Forall worth_nonneg ps ->
  Exists worth_positive ps ->
  exists z : Z,
    riskScore (getPortfolioSummary now ps) = Fin (inject_Z z)
    /\ (0 <= z <= 100)%Z.
Proof.
  intros Hnonneg Hpositive.
  destruct (risk_score_within_bounds now ps Hnonneg Hpositive)
    as (r & Hr & Hr0 & Hr100).
  assert (exists z, r = inject_Z z) as (z & ->).
  { rewrite riskScore_summary in Hr. unfold calculatePortfolioRisk in Hr.
    destruct (length ps =? 0)%nat.
    - injection Hr as <-. eauto.
    - eapply xround_whole. exact Hr. }
  exists z. split; [exact Hr|].
  change 0 with (inject_Z 0) in Hr0. change 100 with (inject_Z 100) in Hr100.
  rewrite <- Zle_Qle in Hr0, Hr100. lia.
Qed.

Lemma size_list_to_set_le (l : list string) :
  (size (list_to_set l : gset string) <= length l)%nat.
Proof.
  induction l as [|x l IH].
  - change (size (∅ : gset string) <= 0)%nat. rewrite size_empty. lia.
  - change (size ({[x]} ∪ list_to_set l : gset string) <= S (length l))%nat.
    rewrite size_union_alt, size_singleton.
    assert (size (list_to_set l ∖ {[x]} : gset string)
            <= size (list_to_set l : gset string))%nat
      by (apply subseteq_size, subseteq_difference_l; reflexivity).
    lia.
Qed.

Lemma length_token_list {num : Type} (ps : list (PositionData num)) :
  length (flat_map (fun pos => [tokenXSymbol pos; tokenYSymbol pos]) ps)
  = (2 * length ps)%nat.
Proof. induction ps as [|p ps IH]; simpl; lia. Qed.

(** X16.  [countUniqueTokens] is 0 exactly on the empty portfolio and never
    exceeds two tokens per position; it counts a symbol once however many
    positions hold it, so it does not depend on the order of the positions. *)
Theorem unique_tokens_bounds {num : Type} `{!JSNumber num}
    (ps : list (PositionData num)) :
  (countUniqueTokens ps <= 2 * length ps)%nat
  /\ (countUniqueTokens ps = 0%nat <-> ps = [])
  /\ (forall ps', ps ≡ₚ ps' -> countUniqueTokens ps' = countUniqueTokens ps)
  /\ countUniqueTokens (ps ++ ps) = countUniqueTokens ps.
Proof.
  unfold countUniqueTokens. split; [|split; [|split]].
  - rewrite <- length_token_list. apply size_list_to_set_le.
  - split.
    + intros Hsize. apply size_empty_inv in Hsize.
      destruct ps as [|p ps]; [reflexivity|]. exfalso.
      apply (not_elem_of_empty (C := gset string) (tokenXSymbol p)).
      rewrite <- Hsize. apply elem_of_list_to_set. left.
    + intros ->. reflexivity.
  - intros ps' Hperm. f_equal. apply leibniz_equiv.
    apply list_to_set_perm. rewrite Hperm. reflexivity.
  - f_equal. apply leibniz_equiv. rewrite flat_map_app, list_to_set_app.
    apply (idemp (∪)).
Qed.

(** X17.  The diversification score is a number between 0 and 100, as its
    documentation says: 0 for at most one position, at least 20 from two
    positions on, and 100 once ten positions hold five distinct tokens. *)
Theorem diversification_score_bounds (ps : list (PositionData xnum)) :
  exists d,
    calculateDiversificationScore ps = Fin d
    /\ 0 <= d /\ d <= 100
    /\ ((length ps <= 1)%nat -> d == 0)
    /\ ((2 <= length ps)%nat -> 20 <= d)
    /\ ((10 <= length ps)%nat -> (5 <= countUniqueTokens ps)%nat -> d == 100).
Proof.
  unfold calculateDiversificationScore.
  destruct (length ps <=? 1)%nat eqn:Hlen.
  - apply Nat.leb_le in Hlen. exists (inject_Z 0). split; [reflexivity|].
    unfold inject_Z. repeat split; try lra; intros; try lra; lia.
  - apply Nat.leb_gt in Hlen.
    assert (1 <= countUniqueTokens ps)%nat as Htokens.
    { destruct (unique_tokens_bounds ps) as (_ & Hzero & _).
      destruct (countUniqueTokens ps); [|lia].
      destruct Hzero as [Hzero _]. rewrite (Hzero eq_refl) in Hlen.
      simpl in Hlen. lia. }
    unfold of_nat, of_Z. cbn [of_Q nadd nmul nmin exact xmul].
    set (u := inject_Z (Z.of_nat (countUniqueTokens ps))).
    set (n := inject_Z (Z.of_nat (length ps))).
    assert (forall k, (k <= Z.of_nat (countUniqueTokens ps))%Z -> inject_Z k <= u)
      as Hu_from.
    { intros k Hk. unfold u. rewrite <- Zle_Qle. exact Hk. }
    assert (forall k, (k <= Z.of_nat (length ps))%Z -> inject_Z k <= n)
      as Hn_from.
    { intros k Hk. unfold n. rewrite <- Zle_Qle. exact Hk. }
    pose proof (Hu_from 1%Z ltac:(lia)) as Hu.
    pose proof (Hn_from 2%Z ltac:(lia)) as Hn.
    destruct (xmin_Fin (inject_Z 50) (u * inject_Z 10))
      as (t & -> & Ht1 & Ht2 & Ht).
    destruct (xmin_Fin (inject_Z 50) (n * inject_Z 5))
      as (p & -> & Hp1 & Hp2 & Hp).
    cbn [xadd].
    destruct (xmin_Fin (inject_Z 100) (t + p)) as (d & -> & Hd1 & Hd2 & Hd).
    exists d. split; [reflexivity|]. unfold inject_Z in *.
    assert (10 <= t) by (destruct Ht as [Ht|Ht]; rewrite Ht; lra).
    assert (10 <= p) by (destruct Hp as [Hp|Hp]; rewrite Hp; lra).
    split; [destruct Hd as [Hd|Hd]; rewrite Hd; lra|].
    split; [exact Hd1|].
    split; [intros; lia|].
    split; [intros _; destruct Hd as [Hd|Hd]; rewrite Hd; lra|].
    intros Hten Hfive.
    pose proof (Hu_from 5%Z ltac:(lia)) as Hu5.
    pose proof (Hn_from 10%Z ltac:(lia)) as Hn10.
    unfold inject_Z in Hu5, Hn10.
    assert (t == 50) by (destruct Ht as [Ht|Ht]; rewrite Ht; lra).
    assert (p == 50) by (destruct Hp as [Hp|Hp]; rewrite Hp; lra).
    destruct Hd as [Hd|Hd]; rewrite Hd; lra.
Qed.
End SummaryExact.

Lemma risk_score_is_whole_percentage_witness :
  exists z : Z,
    riskScore (getPortfolioSummary 0 (getMockPositions 0)) = Fin (inject_Z z)
    /\ (0 <= z <= 100)%Z.
Proof.
  apply (risk_score_is_whole_percentage 0 (getMockPositions 0)).
  - repeat constructor; eexists; (split; [reflexivity|]);
      vm_compute; discriminate.
  - constructor. eexists. split; [reflexivity|]. vm_compute. reflexivity.
Defined.

(** ** Portfolio age and performers *)

Section Age.
Context {num : Type} `{!JSNumber num}.

Lemma oldest_fold (rest : list (PositionData num)) :
  forall first : PositionData num,
    let oldest :=
      foldl (fun oldest pos =>
               if (age_date pos <? age_date oldest)%Z then pos else oldest)
            first rest in
    oldest ∈ first :: rest
    /\ (age_date oldest <= age_date first)%Z
    /\ Forall (fun p => (age_date oldest <= age_date p)%Z) rest.
Proof.
  induction rest as [|p rest IH]; intros first; simpl.
  - split; [left|]. split; [lia|constructor].
  - destruct (age_date p <? age_date first)%Z eqn:Hyounger.
    + apply Z.ltb_lt in Hyounger.
      destruct (IH p) as (Hin & Hle & Hall). simpl in Hin, Hle, Hall.
      split; [right; exact Hin|]. split; [lia|].
      constructor; [exact Hle|exact Hall].
    + apply Z.ltb_ge in Hyounger.
      destruct (IH first) as (Hin & Hle & Hall). simpl in Hin, Hle, Hall.
      split; [|split; [exact Hle|constructor; [lia|exact Hall]]].
      apply elem_of_cons in Hin as [->|Hin]; [left|right; right; exact Hin].
Qed.

(** X18.  The portfolio age is the age, in whole days rounded down, of a
    position that no other position of the portfolio predates (its creation
    date, or its last update when it has none). *)
Theorem portfolio_age_is_age_of_oldest (now : Z) (first : PositionData num)
    (rest : list (PositionData num)) :
  exists oldest,
    oldest ∈ first :: rest
    /\ Forall (fun p => (age_date oldest <= age_date p)%Z) (first :: rest)
    /\ calculatePortfolioAge now (first :: rest)
       = ((now - age_date oldest) / 86400000)%Z
    /\ Forall (fun p => (calculatePortfolioAge now [p]
                         <= calculatePortfolioAge now (first :: rest))%Z)
              (first :: rest).
Proof.
  destruct (oldest_fold rest first) as (Hin & Hle & Hall).
  eexists. split; [exact Hin|]. split; [constructor; [exact Hle|exact Hall]|].
  split; [reflexivity|].
  assert (Forall (fun p => (age_date
            (foldl (fun oldest pos =>
                      if (age_date pos <? age_date oldest)%Z then pos else oldest)
                   first rest) <= age_date p)%Z) (first :: rest)) as Hevery
    by (constructor; [exact Hle|exact Hall]).
  eapply Forall_impl; [exact Hevery|]. intros p Hp. simpl in Hp |- *.
  apply Z.div_le_mono; lia.
Qed.
End Age.

Section Performers.

Lemma insert_by_pnl_perm {num : Type} `{!JSNumber num} (a : PositionData num)
    (sorted : list (PositionData num)) :
  insert_by_pnl a sorted ≡ₚ a :: sorted.
Proof.
  induction sorted as [|b rest IH]; simpl; [reflexivity|].
  destruct (nltb _ _); [|reflexivity].
  rewrite IH. apply Permutation_swap.
Qed.

Lemma sortedByPnl_perm {num : Type} `{!JSNumber num}
    (positions : list (PositionData num)) :
  sortedByPnl positions ≡ₚ positions.
Proof.
  unfold sortedByPnl. induction positions as [|a rest IH]; simpl; [reflexivity|].
  rewrite insert_by_pnl_perm, IH. reflexivity.
Qed.

Lemma insert_by_pnl_descending (a : PositionData xnum)
    (sorted : list (PositionData xnum)) :
  pnl_finite a -> Forall pnl_finite sorted -> descending sorted ->
  descending (insert_by_pnl a sorted).
Proof.
  intros (qa & Ha). induction sorted as [|b rest IH]; intros Hfinite Hsorted.
  - simpl. split; [constructor|exact I].
  - apply Forall_cons in Hfinite as [(qb & Hb) Hfinite].
    destruct Hsorted as [Hb_top Hsorted]. cbn [insert_by_pnl].
    rewrite Ha, Hb. cbn [nsub nltb of_Z of_Q exact]. unfold xsub.
    cbn [xopp xadd].
    destruct (xltb (Fin (inject_Z 0)) (Fin (qb + - qa))) eqn:Hcmp;
      cbn [descending].
    + apply xltb_Fin in Hcmp. unfold inject_Z in Hcmp. split.
      * rewrite insert_by_pnl_perm. constructor; [|exact Hb_top].
        unfold pnl_le. rewrite Ha, Hb. apply xleb_Fin. lra.
      * apply IH; assumption.
    + assert (~ (inject_Z 0 < qb + - qa)%Q) as Hle.
      { intros Hlt. apply xltb_Fin in Hlt. congruence. }
      unfold inject_Z in Hle. split; [|split; assumption].
      constructor.
      * unfold pnl_le. rewrite Ha, Hb. apply xleb_Fin. lra.
      * rewrite Forall_forall in Hb_top, Hfinite. apply Forall_forall.
        intros r Hr. destruct (Hfinite r Hr) as (qr & Hqr).
        specialize (Hb_top r Hr). unfold pnl_le in *.
        rewrite Hqr, Hb in Hb_top. rewrite Hqr, Ha.
        apply xleb_Fin in Hb_top. apply xleb_Fin. lra.
Qed.

Lemma sortedByPnl_descending (positions : list (PositionData xnum)) :
  Forall pnl_finite positions -> descending (sortedByPnl positions).
Proof.
  unfold sortedByPnl. induction 1 as [|a rest Ha Hrest IH]; simpl; [exact I|].
  apply insert_by_pnl_descending; [exact Ha| |exact IH].
  fold (sortedByPnl rest). rewrite sortedByPnl_perm. exact Hrest.
Qed.

Lemma descending_last (l : list (PositionData xnum)) (worst : PositionData xnum) :
  Forall pnl_finite l -> descending l -> last l = Some worst ->
  Forall (fun p => pnl_le worst p) l.
Proof.
  induction l as [|x rest IH]; intros Hfinite Hsorted Hlast; [constructor|].
  apply Forall_cons in Hfinite as [(qx & Hx) Hfinite].
  destruct Hsorted as [Htop Hsorted].
  destruct rest as [|y rest].
  - injection Hlast as <-. constructor; [|constructor].
    unfold pnl_le. rewrite Hx. apply xleb_Fin. apply Qle_refl.
  - change (last (x :: y :: rest)) with (last (y :: rest)) in Hlast.
    specialize (IH Hfinite Hsorted Hlast). constructor; [|exact IH].
    rewrite Forall_forall in Htop. apply Htop.
    apply last_Some_elem_of. exact Hlast.
Qed.

(** X19.  When every profit percentage is a finite number (exact numbers),
    [topPerformer] is the id of a position that none of the portfolio
    outperforms and [worstPerformer] the id of one that outperforms none. *)
Theorem performers_are_extremes (now : Z) (p0 : PositionData xnum)
    (ps : list (PositionData xnum)) :
  Forall pnl_finite (p0 :: ps) ->
  exists top worst,
    top ∈ p0 :: ps /\ worst ∈ p0 :: ps
    /\ topPerformer (getPortfolioSummary now (p0 :: ps)) = id top
    /\ worstPerformer (getPortfolioSummary now (p0 :: ps)) = id worst
    /\ Forall (fun p => pnl_le p top /\ pnl_le worst p) (p0 :: ps).
Proof.
  intros Hfinite. unfold getPortfolioSummary.
  cbn [length Nat.eqb topPerformer worstPerformer].
  pose proof (sortedByPnl_perm (p0 :: ps)) as Hperm.
  pose proof (sortedByPnl_descending (p0 :: ps) Hfinite) as Hsorted.
  assert (Forall pnl_finite (sortedByPnl (p0 :: ps))) as Hfinite'
    by (rewrite Hperm; exact Hfinite).
  destruct (sortedByPnl (p0 :: ps)) as [|top rest] eqn:Hs.
  { apply Permutation_nil_l in Hperm. discriminate Hperm. }
  destruct (last (top :: rest)) as [worst|] eqn:Hlast;
    [|apply last_None in Hlast; discriminate Hlast].
  exists top, worst. cbn [head].
  split; [rewrite <- Hperm; left|].
  split; [rewrite <- Hperm; apply last_Some_elem_of; exact Hlast|].
  split; [reflexivity|]. split; [reflexivity|].
  rewrite <- Hperm. apply Forall_and. split.
  - destruct Hsorted as [Htop _]. constructor; [|exact Htop].
    apply Forall_cons in Hfinite' as [(q & Hq) _].
    unfold pnl_le. rewrite Hq. apply xleb_Fin. apply Qle_refl.
  - eapply descending_last; eassumption.
Qed.
End Performers.

Lemma performers_are_extremes_witness :
  exists top worst : PositionData xnum,
    top ∈ getMockPositions 0 /\ worst ∈ getMockPositions 0
    /\ topPerformer (getPortfolioSummary 0 (getMockPositions 0)) = id top
    /\ worstPerformer (getPortfolioSummary 0 (getMockPositions 0)) = id worst
    /\ Forall (fun p => pnl_le p top /\ pnl_le worst p) (getMockPositions 0).
Proof.
  eapply (performers_are_extremes 0).
  repeat constructor; eexists; reflexivity.
Defined.

(** ** The profit the service reports *)

Section Reported.
Local Open Scope Q_scope.


End Reported.


(** * The hooks of the dashboard *)

(** ** Pagination *)

Section Pagination.
Context {num : Type} `{!JSNumber num}.

Lemma js_slice_window {A} (xs : list A) (start width : Z) :
  0 <= start -> 0 <= width ->
  js_slice xs start (start + width)
  = take (Z.to_nat width) (drop (Z.to_nat start) xs).
Proof.
  intros Hstart Hwidth. unfold js_slice.
  assert ((start <? 0) = false) as -> by lia.
  assert ((start + width <? 0) = false) as -> by lia.
  destruct (decide (start <= Z.of_nat (length xs))) as [Hin|Hout].
  - rewrite (Z.min_l start) by lia.
    destruct (decide (start + width <= Z.of_nat (length xs))) as [Hfull|Hcut].
    + rewrite Z.min_l by lia. f_equal. lia.
    + rewrite Z.min_r by lia.
      rewrite !take_ge; [reflexivity|rewrite length_drop; lia..].
  - rewrite !Z.min_r by lia. rewrite !drop_ge by lia.
    rewrite !take_nil. reflexivity.
Qed.

Lemma page_window (positions : list (PositionData num)) (k : nat) (limit : Z) :
  0 <= limit ->
  paginatedPositions (usePaginatedPositions positions (Z.of_nat (S k)) limit)
  = take (Z.to_nat limit) (drop (k * Z.to_nat limit) positions).
Proof.
  intros Hlimit. unfold usePaginatedPositions. cbn [paginatedPositions].
  rewrite js_slice_window by nia. f_equal. f_equal. nia.
Qed.

Lemma pages_concat (positions : list (PositionData num)) (limit : Z) (pages : nat) :
  0 <= limit ->
  concat (map (fun k => paginatedPositions
                          (usePaginatedPositions positions (Z.of_nat k) limit))
              (seq 1 pages))
  = take (pages * Z.to_nat limit) positions.
Proof.
  intros Hlimit. induction pages as [|pages IH]; [reflexivity|].
  rewrite seq_S, map_app, concat_app, IH. cbn [map concat Nat.add].
  rewrite app_nil_r, page_window by exact Hlimit.
  rewrite take_take_drop. f_equal. lia.
Qed.


Lemma ceiling_bounds (n limit : Z) :
  0 <= n -> 0 < limit ->
  let pages := Qceiling (inject_Z n / inject_Z limit) in
  0 <= pages /\ n <= pages * limit /\ (pages - 1) * limit < n.
Proof.
  intros Hn Hlimit pages.
  pose proof (Qle_ceiling (inject_Z n / inject_Z limit)) as Hup.
  pose proof (Qceiling_lt (inject_Z n / inject_Z limit)) as Hdown.
  fold pages in Hup, Hdown.
  assert (0 < inject_Z limit)%Q as Hl by (rewrite <- (Zlt_Qlt 0); exact Hlimit).
  assert (0 <= inject_Z n)%Q as Hn' by (rewrite <- (Zle_Qle 0); exact Hn).
  assert (inject_Z n / inject_Z limit * inject_Z limit == inject_Z n)%Q as Hq
    by (field; lra).
  assert (inject_Z n <= inject_Z pages * inject_Z limit)%Q as Hle.
  { rewrite <- Hq. apply Qmult_le_compat_r; [exact Hup|lra]. }
  assert (inject_Z (pages - 1) * inject_Z limit < inject_Z n)%Q as Hlt.
  { rewrite <- Hq. apply Qmult_lt_compat_r; [exact Hl|exact Hdown]. }
  rewrite <- inject_Z_mult, <- Zle_Qle in Hle.
  rewrite <- inject_Z_mult, <- Zlt_Qlt in Hlt.
  split; [nia|]. split; assumption.
Qed.

Lemma totalPages_whole (positions : list (PositionData num)) (page limit : Z) :
  0 < limit ->
  totalPages (usePaginatedPositions positions page limit)
  = Fin (inject_Z (Qceiling (inject_Z (Z.of_nat (length positions))
                             / inject_Z limit))).
Proof.
  intros Hlimit. unfold usePaginatedPositions. cbn [totalPages].
  rewrite xdiv_Fin; [reflexivity|].
  intros Hzero. assert (0 < inject_Z limit)%Q as Hl
    by (rewrite <- (Zlt_Qlt 0); exact Hlimit).
  lra.
Qed.

(** X21.  For a page size of at least one, the pages 1, 2, ..., [totalPages]
    are non-empty and, put end to end, give back the list: no position is
    lost and none is shown twice; every later page is empty. *)
Theorem pages_partition_the_list (positions : list (PositionData num))
    (limit : Z) :
  0 < limit ->
  exists pages : nat,
    (forall page,
       totalPages (usePaginatedPositions positions page limit)
       = Fin (inject_Z (Z.of_nat pages)))
    /\ concat (map (fun k => paginatedPositions
                               (usePaginatedPositions positions (Z.of_nat k) limit))
                   (seq 1 pages))
       = positions
    /\ forall k : nat,
         (1 <= k)%nat ->
         paginatedPositions (usePaginatedPositions positions (Z.of_nat k) limit)
         = [] <-> (pages < k)%nat.
Proof.
  intros Hlimit.
  destruct (ceiling_bounds (Z.of_nat (length positions)) limit)
    as (Hpages & Hcover & Htight); [lia|exact Hlimit|].
  set (pages := Qceiling (inject_Z (Z.of_nat (length positions)) / inject_Z limit))
    in *.
  exists (Z.to_nat pages). split; [|split].
  - intros page. rewrite totalPages_whole by exact Hlimit. fold pages.
    rewrite Z2Nat.id by exact Hpages. reflexivity.
  - rewrite pages_concat by lia. apply take_ge. nia.
  - intros k Hk. destruct k as [|k]; [lia|].
    rewrite page_window by lia. split.
    + intros Hempty. apply (f_equal length) in Hempty.
      rewrite length_take, length_drop in Hempty. simpl in Hempty. nia.
    + intros Hpast. rewrite drop_ge; [apply take_nil|]. nia.
Qed.

(** X22.  For a page size of at least one and a page number of at least one: a
    page never holds more than [limit] positions; [hasNextPage] is true
    exactly when positions remain after this page, and then the page is
    full; [hasPrevPage] is true exactly from page 2 on. *)
Theorem page_size_and_neighbours (positions : list (PositionData num))
    (page limit : Z) :
  0 < limit -> 1 <= page ->
  let shown := usePaginatedPositions positions page limit in
  Z.of_nat (length (paginatedPositions shown)) <= limit
  /\ (hasNextPage shown = true <-> page * limit < Z.of_nat (length positions))
  /\ (hasNextPage shown = true ->
      Z.of_nat (length (paginatedPositions shown)) = limit)
  /\ (hasPrevPage shown = true <-> 1 < page)
  /\ totalItems shown = length positions.
Proof.
  intros Hlimit Hpage shown.
  destruct (ceiling_bounds (Z.of_nat (length positions)) limit)
    as (Hpages & Hcover & Htight); [lia|exact Hlimit|].
  assert (hasNextPage shown = true <-> page * limit < Z.of_nat (length positions))
    as Hnext.
  { pose proof (totalPages_whole positions page limit Hlimit) as Htotal.
    unfold usePaginatedPositions in Htotal. cbn [totalPages] in Htotal.
    unfold shown, usePaginatedPositions. cbn [hasNextPage]. rewrite Htotal.
    rewrite xltb_Fin, <- Zlt_Qlt. split; intros; nia. }
  assert (paginatedPositions shown
          = take (Z.to_nat limit)
              (drop (Z.to_nat (page - 1) * Z.to_nat limit) positions)) as Hshown.
  { unfold shown. replace page with (Z.of_nat (S (Z.to_nat (page - 1)))) at 1 by lia.
    apply page_window. lia. }
  split; [rewrite Hshown, length_take; lia|].
  split; [exact Hnext|].
  split.
  - intros Hmore. apply Hnext in Hmore.
    rewrite Hshown, length_take, length_drop. nia.
  - split; [|reflexivity]. unfold shown, usePaginatedPositions.
    cbn [hasPrevPage]. apply Z.ltb_lt.
Qed.
End Pagination.

Lemma pages_partition_the_list_witness :
  exists pages : nat,
    (forall page,
       totalPages (usePaginatedPositions (getMockPositions (num := xnum) 0) page 2)
       = Fin (inject_Z (Z.of_nat pages)))
    /\ concat (map (fun k => paginatedPositions
                               (usePaginatedPositions (getMockPositions (num := xnum) 0)
                                  (Z.of_nat k) 2))
                   (seq 1 pages))
       = getMockPositions (num := xnum) 0
    /\ forall k : nat,
         (1 <= k)%nat ->
         paginatedPositions (usePaginatedPositions (getMockPositions (num := xnum) 0)
                               (Z.of_nat k) 2)
         = [] <-> (pages < k)%nat.
Proof.
  apply (pages_partition_the_list (getMockPositions (num := xnum) 0) 2). reflexivity.
Defined.

Lemma page_size_and_neighbours_witness :
  let shown := usePaginatedPositions (getMockPositions (num := xnum) 0) 1 2 in
  map id (paginatedPositions shown) = ["mock_pos_1"; "mock_pos_2"]
  /\ Z.of_nat (length (paginatedPositions shown)) <= 2
  /\ (hasNextPage shown = true <-> 1 * 2 < Z.of_nat (length (getMockPositions (num := xnum) 0)))
  /\ (hasNextPage shown = true ->
      Z.of_nat (length (paginatedPositions shown)) = 2)
  /\ (hasPrevPage shown = true <-> 1 < 1)
  /\ totalItems shown = length (getMockPositions (num := xnum) 0).
Proof.
  split; [reflexivity|].
  apply (page_size_and_neighbours (getMockPositions (num := xnum) 0) 1 2);
    [reflexivity|discriminate].
Defined.

(** ** Statistics, computed values and filters *)

Section Stats.
Context {num : Type} `{!JSNumber num}.
Local Open Scope js_scope.

Lemma level_name_inj (r r' : RiskLevel) : level_name r = level_name r' -> r = r'.
Proof. destruct r, r'; simpl; congruence. Qed.

Lemma riskDistribution_fold (r : RiskLevel) (positions : list (PositionData num)) :
  forall acc : gmap string nat,
    default 0%nat
      (foldl (fun (acc : gmap string nat) pos =>
                <[level_name (riskLevel pos) :=
                    (default 0%nat (acc !! level_name (riskLevel pos)) + 1)%nat]> acc)
             acc positions !! level_name r)
    = (default 0%nat (acc !! level_name r)
       + count (fun pos => bool_decide (riskLevel pos = r)) positions)%nat.
Proof.
  unfold count. induction positions as [|p ps IH]; intros acc; cbn [foldl].
  - rewrite filter_nil. simpl. lia.
  - rewrite IH, filter_cons. clear IH.
    destruct (decide (riskLevel p = r)) as [->|Hother].
    + rewrite lookup_insert_eq, bool_decide_eq_true_2 by reflexivity.
      rewrite decide_True by reflexivity. simpl. lia.
    + rewrite lookup_insert_ne
        by (intros Heq; apply level_name_inj in Heq; contradiction).
      rewrite bool_decide_eq_false_2 by exact Hother.
      rewrite decide_False by discriminate. lia.
Qed.

Lemma count_levels (positions : list (PositionData num)) :
  (count (fun pos => bool_decide (riskLevel pos = Low)) positions
   + count (fun pos => bool_decide (riskLevel pos = Medium)) positions
   + count (fun pos => bool_decide (riskLevel pos = High)) positions
   = length positions)%nat.
Proof.
  unfold count. induction positions as [|p ps IH]; [reflexivity|].
  rewrite !filter_cons. destruct (riskLevel p); simpl;
    repeat case_decide; try congruence; simpl; lia.
Qed.

(** X23.  The statistics of the hook and the summary of the service agree, on
    every list of positions, on the number of positions, the three totals
    and the two range counts; and [riskDistribution] holds, for each
    level, the number of positions of that level, the three adding up to
    the number of positions. *)
Theorem stats_agree_with_summary (now : Z) (positions : list (PositionData num)) :
  let stats := usePortfolioStats positions in
  let summary := getPortfolioSummary now positions in
  totalPositions stats = activePositions summary
  /\ totalValue stats = totalValueUSD summary
  /\ totalPnL stats = totalPnlUSD summary
  /\ totalFees stats = totalFeesUSD_sum summary
  /\ stats_inRangePositions stats = inRangePositions summary
  /\ stats_outOfRangePositions stats = outOfRangePositions summary
  /\ (forall r,
        default 0%nat (riskDistribution stats !! level_name r)
        = count (fun pos => bool_decide (riskLevel pos = r)) positions)
  /\ (default 0 (riskDistribution stats !! "Low")
      + default 0 (riskDistribution stats !! "Medium")
      + default 0 (riskDistribution stats !! "High")
      = totalPositions stats)%nat.
Proof.
  intros stats summary.
  assert (forall r,
            default 0%nat (riskDistribution stats !! level_name r)
            = count (fun pos => bool_decide (riskLevel pos = r)) positions)
    as Hlevels.
  { intros r. unfold stats, usePortfolioStats. cbn [riskDistribution].
    rewrite riskDistribution_fold, lookup_empty. reflexivity. }
  unfold summary, getPortfolioSummary.
  destruct positions as [|p ps].
  - repeat split; reflexivity || exact Hlevels.
  - cbn [length Nat.eqb].
    repeat (split; [reflexivity|]). split; [exact Hlevels|].
    pose proof (Hlevels Low) as Hlow. pose proof (Hlevels Medium) as Hmedium.
    pose proof (Hlevels High) as Hhigh. cbn [level_name] in Hlow, Hmedium, Hhigh.
    rewrite Hlow, Hmedium, Hhigh. apply count_levels.
Qed.

Lemma truthy_number_or_zero (summary : option (PortfolioSummary num))
    (field : PortfolioSummary num -> num) :
  number_or_zero summary field = of_Z 0
  \/ truthy (number_or_zero summary field) = true.
Proof.
  unfold number_or_zero. destruct summary as [s|]; [|left; reflexivity].
  destruct (truthy (field s)) eqn:Htruthy; [right; exact Htruthy|left; reflexivity].
Qed.
End Stats.

(** X24.  Every number the hook shows for a summary ([totalValue], [totalPnL],
    [totalPnLPercentage], [averageAPY], [riskScore]) is a number, never
    [NaN]: [|| 0] turns the [NaN] risk score of a portfolio without value
    into 0, and leaves every other value as the summary has it.  On the
    exact numbers, then on binary64. *)
Theorem shown_numbers_are_never_nan :
  (forall (positions : list (PositionData xnum))
          (summary : PortfolioSummary xnum),
     let shown := computed positions (Some summary) in
     Forall (fun a => a <> NaN)
       [shown_totalValue shown; shown_totalPnL shown;
        shown_totalPnLPercentage shown; shown_averageAPY shown;
        shown_riskScore shown]
     /\ (riskScore summary = NaN -> shown_riskScore shown = Fin 0)
     /\ (riskScore summary <> NaN ->
         xeq (shown_riskScore shown) (riskScore summary)))
  /\ (forall (positions : list (PositionData PrimFloat.float))
             (summary : PortfolioSummary PrimFloat.float),
        let shown := computed positions (Some summary) in
        Forall (fun a => PrimFloat.is_nan a = false)
          [shown_totalValue shown; shown_totalPnL shown;
           shown_totalPnLPercentage shown; shown_averageAPY shown;
           shown_riskScore shown]
        /\ (PrimFloat.is_nan (riskScore summary) = true ->
            shown_riskScore shown = of_Z 0)).
Proof.
  split.
  - intros positions summary shown. split; [|split].
    + unfold shown, computed.
      cbn [shown_totalValue shown_totalPnL shown_totalPnLPercentage
             shown_averageAPY shown_riskScore].
      repeat constructor;
        match goal with
        | |- number_or_zero ?s ?f <> NaN =>
            destruct (truthy_number_or_zero s f) as [Hzero|Htruthy];
              [rewrite Hzero; discriminate
              |intros Hnan; rewrite Hnan in Htruthy; discriminate Htruthy]
        end.
    + intros Hnan. unfold shown, computed. cbn [shown_riskScore number_or_zero].
      rewrite Hnan. reflexivity.
    + intros Hnumber. unfold shown, computed.
      cbn [shown_riskScore number_or_zero].
      destruct (riskScore summary) as [q| | |]; try contradiction;
        try reflexivity.
      cbn [truthy exact xtruthy]. destruct (Qeq_bool q 0) eqn:Hq; simpl.
      * apply Qeq_bool_eq in Hq. symmetry. exact Hq.
      * reflexivity.
  - intros positions summary shown. split.
    + unfold shown, computed.
      cbn [shown_totalValue shown_totalPnL shown_totalPnLPercentage
             shown_averageAPY shown_riskScore].
      repeat constructor;
        match goal with
        | |- PrimFloat.is_nan (number_or_zero ?s ?f) = false =>
            destruct (truthy_number_or_zero s f) as [Hzero|Htruthy];
              [rewrite Hzero; reflexivity
              |cbn [truthy binary64] in Htruthy; unfold B64.truthy in Htruthy;
               destruct (PrimFloat.is_nan _); [discriminate Htruthy|reflexivity]]
        end.
    + intros Hnan. unfold shown, computed. cbn [shown_riskScore number_or_zero].
      cbn [truthy binary64]. unfold B64.truthy. rewrite Hnan. reflexivity.
Qed.

Section Filtering.
Context {num : Type} `{!JSNumber num}.
Local Open Scope js_scope.

(** X25.  [useFilteredPositions] keeps the order of the positions and drops
    some; applied twice with the same criteria it changes nothing more; two
    sets of criteria can be applied in either order; without criteria it
    returns every position; and each position it keeps has the wanted
    [inRange] and one of the wanted risk levels. *)
Theorem filtered_positions_keep_order (str : StringMethods)
    (positions : list (PositionData num)) (filters filters' : Filters num) :
  let kept := useFilteredPositions str positions filters in
  kept `sublist_of` positions
  /\ useFilteredPositions str kept filters = kept
  /\ useFilteredPositions str kept filters'
     = useFilteredPositions str
         (useFilteredPositions str positions filters') filters
  /\ useFilteredPositions str positions no_filters = positions
  /\ Forall (fun p =>
               (forall wanted,
                  filter_inRange filters = Some wanted -> inRange p = wanted)
               /\ (forall level levels,
                     filter_riskLevel filters = Some (level :: levels) ->
                     level_name (riskLevel p) ∈ level :: levels))
            kept.
Proof.
  intros kept. unfold kept, useFilteredPositions.
  split; [apply sublist_filter|].
  split; [apply list_filter_filter_l; auto|].
  split.
  { rewrite !list_filter_filter. apply list_filter_iff. tauto. }
  split.
  { induction positions as [|p ps IH]; [reflexivity|].
    rewrite filter_cons_True by reflexivity. f_equal. exact IH. }
  apply Forall_forall. intros p Hp. apply list_elem_of_filter in Hp as [Hpass _].
  unfold passes in Hpass. rewrite !andb_true_iff in Hpass.
  destruct Hpass as [[[[[[Hlevel Hrange] _] _] _] _] _].
  split.
  - intros wanted Hwanted. rewrite Hwanted in Hrange.
    apply eqb_prop. exact Hrange.
  - intros level levels Hlevels. rewrite Hlevels in Hlevel.
    apply bool_decide_eq_true_1 in Hlevel. exact Hlevel.
Qed.
End Filtering.

Section FilteringExact.
Local Open Scope Q_scope.

(** X26.  On the exact numbers: a position kept by [useFilteredPositions] whose
    profit percentage and APY are finite lies within the bounds of the
    criteria; but a position whose profit percentage and APY are [NaN]
    passes every bound, since all comparisons with [NaN] are false. *)
Theorem filter_bounds_and_nan (str : StringMethods)
    (positions : list (PositionData xnum)) (filters : Filters xnum) :
  Forall (fun p =>
            forall pnl yield,
              pnlPercentage p = Fin pnl -> apy p = Fin yield ->
              (forall lo, minPnlPercentage filters = Some (Fin lo) -> lo <= pnl)
              /\ (forall hi, maxPnlPercentage filters = Some (Fin hi) -> pnl <= hi)
              /\ (forall lo, minAPY filters = Some (Fin lo) -> lo <= yield)
              /\ (forall hi, maxAPY filters = Some (Fin hi) -> yield <= hi))
         (useFilteredPositions str positions filters)
  /\ forall p,
       pnlPercentage p = NaN -> apy p = NaN ->
       filter_riskLevel filters = None -> filter_inRange filters = None ->
       filter_pairName filters = None ->
       passes str filters p = true.
Proof.
  split.
  - apply Forall_forall. intros p Hp.
    apply list_elem_of_filter in Hp as [Hpass _].
    unfold passes in Hpass. rewrite !andb_true_iff in Hpass.
    destruct Hpass as [[[[[[_ _] _] Hmin] Hmax] Hlow] Hhigh].
    intros pnl yield Hpnl Hyield. rewrite Hpnl in Hmin, Hmax.
    rewrite Hyield in Hlow, Hhigh.
    assert (forall a b, negb (xltb (Fin a) (Fin b)) = true -> b <= a) as Hnot.
    { intros a b Hab. apply negb_true_iff in Hab.
      apply Qnot_lt_le. intros Hlt. apply xltb_Fin in Hlt. congruence. }
    repeat split; intros bound Hbound.
    + rewrite Hbound in Hmin. apply Hnot. exact Hmin.
    + rewrite Hbound in Hmax. apply Hnot. exact Hmax.
    + rewrite Hbound in Hlow. apply Hnot. exact Hlow.
    + rewrite Hbound in Hhigh. apply Hnot. exact Hhigh.
  - intros p Hpnl Hyield Hlevel Hrange Hpair. unfold passes.
    rewrite Hpnl, Hyield, Hlevel, Hrange, Hpair.
    destruct (minPnlPercentage filters) as [[| | |]|],
             (maxPnlPercentage filters) as [[| | |]|],
             (minAPY filters) as [[| | |]|],
             (maxAPY filters) as [[| | |]|]; reflexivity.
Qed.
End FilteringExact.

(** ** The two performer searches *)

Section PerformersAgree.
Local Open Scope Q_scope.

Lemma xltb_Fin_false (a b : Q) : xltb (Fin a) (Fin b) = false <-> b <= a.
Proof.
  split.
  - intros Hab. apply Qnot_lt_le. intros Hlt. apply xltb_Fin in Hlt. congruence.
  - intros Hle. destruct (xltb (Fin a) (Fin b)) eqn:Hab; [|reflexivity].
    apply xltb_Fin in Hab. lra.
Qed.

Lemma first_best_elem (rest : list (PositionData xnum)) :
  forall a, first_best a rest ∈ a :: rest.
Proof.
  induction rest as [|b rest IH]; intros a; simpl; [left|].
  destruct (xltb _ _); [right; apply IH|left].
Qed.

Lemma first_best_finite (a : PositionData xnum) (rest : list (PositionData xnum)) :
  Forall pnl_finite (a :: rest) -> pnl_finite (first_best a rest).
Proof.
  intros Hfinite. rewrite Forall_forall in Hfinite. apply Hfinite.
  apply first_best_elem.
Qed.

Lemma head_sortedByPnl (rest : list (PositionData xnum)) :
  forall a,
    Forall pnl_finite (a :: rest) ->
    head (sortedByPnl (a :: rest)) = Some (first_best a rest).
Proof.
  induction rest as [|b rest IH]; intros a Hfinite; [reflexivity|].
  apply Forall_cons in Hfinite as [(qa & Ha) Hfinite].
  specialize (IH b Hfinite).
  destruct (first_best_finite b rest Hfinite) as (qm & Hm).
  change (sortedByPnl (a :: b :: rest))
    with (insert_by_pnl a (sortedByPnl (b :: rest))).
  destruct (sortedByPnl (b :: rest)) as [|m tl]; [discriminate IH|].
  injection IH as ->. cbn [insert_by_pnl first_best].
  rewrite Ha, Hm. cbn [nsub nltb of_Z of_Q exact]. unfold xsub.
  cbn [xopp xadd].
  destruct (xltb (Fin qa) (Fin qm)) eqn:Hcmp.
  - apply xltb_Fin in Hcmp.
    assert (xltb (Fin (inject_Z 0)) (Fin (qm + - qa)) = true) as ->
      by (apply xltb_Fin; unfold inject_Z; lra).
    reflexivity.
  - apply xltb_Fin_false in Hcmp.
    assert (xltb (Fin (inject_Z 0)) (Fin (qm + - qa)) = false) as ->
      by (apply xltb_Fin_false; unfold inject_Z; lra).
    reflexivity.
Qed.

Lemma first_best_step (a b : PositionData xnum) (rest : list (PositionData xnum)) :
  Forall pnl_finite (a :: b :: rest) ->
  first_best a (b :: rest)
  = first_best (if xltb (pnlPercentage a) (pnlPercentage b) then b else a) rest.
Proof.
  intros Hfinite. apply Forall_cons in Hfinite as [(qa & Ha) Hfinite].
  destruct rest as [|c rest]; [reflexivity|].
  pose proof Hfinite as Hfinite'.
  apply Forall_cons in Hfinite' as [(qb & Hb) Hrest].
  destruct (first_best_finite c rest Hrest) as (qm & Hm).
  cbn [first_best]. rewrite Ha, Hb, Hm.
  destruct (xltb (Fin qb) (Fin qm)) eqn:Hbm;
    destruct (xltb (Fin qa) (Fin qb)) eqn:Hab;
    rewrite ?Ha, ?Hb, ?Hm, ?Hbm, ?Hab;
    destruct (xltb (Fin qa) (Fin qm)) eqn:Ham;
    try reflexivity;
    repeat match goal with
           | H : xltb (Fin _) (Fin _) = true |- _ => apply xltb_Fin in H
           | H : xltb (Fin _) (Fin _) = false |- _ => apply xltb_Fin_false in H
           end; lra.
Qed.

Lemma best_fold (rest : list (PositionData xnum)) :
  forall a,
    Forall pnl_finite (a :: rest) ->
    foldl (fun best pos =>
             if nltb (pnlPercentage best) (pnlPercentage pos) then pos else best)
          a rest
    = first_best a rest.
Proof.
  induction rest as [|b rest IH]; intros a Hfinite; [reflexivity|].
  rewrite first_best_step by exact Hfinite. cbn [foldl]. apply IH.
  apply Forall_cons in Hfinite as [Ha Hfinite].
  apply Forall_cons in Hfinite as [Hb Hrest].
  constructor; [|exact Hrest].
  destruct (xltb (pnlPercentage a) (pnlPercentage b)); assumption.
Qed.

Lemma pnl_le_trans (w a b : PositionData xnum) :
  pnl_finite a -> pnl_le w a -> pnl_le a b -> pnl_le w b.
Proof.
  intros (qa & Ha). unfold pnl_le. rewrite Ha.
  destruct (pnlPercentage w) as [qw| | |], (pnlPercentage b) as [qb| | |];
    cbn [xleb]; try congruence; try reflexivity.
  intros Hwa Hab. apply xleb_Fin in Hwa, Hab. apply xleb_Fin. lra.
Qed.

Lemma worst_fold (rest : list (PositionData xnum)) :
  forall a,
    Forall pnl_finite (a :: rest) ->
    let worst :=
      foldl (fun worst pos =>
               if nltb (pnlPercentage pos) (pnlPercentage worst) then pos else worst)
            a rest in
    worst ∈ a :: rest
    /\ pnl_le worst a
    /\ Forall (fun p => pnl_le worst p) rest.
Proof.
  induction rest as [|b rest IH]; intros a Hfinite; cbn [foldl].
  - apply Forall_cons in Hfinite as [(qa & Ha) _].
    split; [left|]. split; [|constructor].
    unfold pnl_le. rewrite Ha. apply xleb_Fin. apply Qle_refl.
  - apply Forall_cons in Hfinite as [Ha Hfinite].
    pose proof Hfinite as Hfinite'.
    apply Forall_cons in Hfinite' as [Hb Hrest].
    destruct Ha as (qa & Ha). destruct Hb as (qb & Hb).
    destruct (nltb (pnlPercentage b) (pnlPercentage a)) eqn:Hcmp;
      rewrite Ha, Hb in Hcmp; cbn [nltb exact] in Hcmp.
    + apply xltb_Fin in Hcmp.
      destruct (IH b Hfinite) as (Hin & Hle & Hall).
      cbn zeta in Hin, Hle, Hall.
      split; [right; exact Hin|].
      split; [|constructor; [exact Hle|exact Hall]].
      apply (pnl_le_trans _ b a); [eexists; exact Hb|exact Hle|].
      unfold pnl_le. rewrite Ha, Hb. apply xleb_Fin. lra.
    + apply xltb_Fin_false in Hcmp.
      destruct (IH a (Forall_cons_2 _ _ _ (ex_intro _ qa Ha) Hrest))
        as (Hin & Hle & Hall).
      cbn zeta in Hin, Hle, Hall.
      split.
      { apply elem_of_cons in Hin as [Hin|Hin];
          [rewrite Hin; left|right; right; exact Hin]. }
      split; [exact Hle|].
      constructor; [|exact Hall].
      apply (pnl_le_trans _ a b); [eexists; exact Ha|exact Hle|].
      unfold pnl_le. rewrite Ha, Hb. apply xleb_Fin. lra.
Qed.

(** X27.  When every profit percentage is a finite number (exact numbers), the
    hook's [bestPerformer] is the very position the summary names as
    [topPerformer]; the hook's [worstPerformer] and the position the summary
    names as [worstPerformer] have the same profit percentage, but on a tie
    they can be different positions (the hook takes the first of the
    worst, the summary the last). *)
Theorem best_performer_is_top_performer (now : Z) (p0 : PositionData xnum)
    (ps : list (PositionData xnum)) :
  Forall pnl_finite (p0 :: ps) ->
  exists best worst last_worst,
    bestPerformer (usePortfolioStats (p0 :: ps)) = Some best
    /\ stats_worstPerformer (usePortfolioStats (p0 :: ps)) = Some worst
    /\ topPerformer (getPortfolioSummary now (p0 :: ps)) = id best
    /\ last_worst ∈ p0 :: ps
    /\ worstPerformer (getPortfolioSummary now (p0 :: ps)) = id last_worst
    /\ xeq (pnlPercentage last_worst) (pnlPercentage worst).
Proof.
  intros Hfinite.
  pose proof (sortedByPnl_perm (p0 :: ps)) as Hperm.
  pose proof (sortedByPnl_descending (p0 :: ps) Hfinite) as Hsorted.
  pose proof (head_sortedByPnl ps p0 Hfinite) as Hhead.
  assert (Forall pnl_finite (sortedByPnl (p0 :: ps))) as Hfinite'
    by (rewrite Hperm; exact Hfinite).
  destruct (last (sortedByPnl (p0 :: ps))) as [last_worst|] eqn:Hlast.
  2: { apply last_None in Hlast. rewrite Hlast in Hhead. discriminate Hhead. }
  pose proof (descending_last _ _ Hfinite' Hsorted Hlast) as Hlowest.
  rewrite Hperm in Hlowest.
  assert (last_worst ∈ p0 :: ps) as Hin_last
    by (rewrite <- Hperm; apply last_Some_elem_of; exact Hlast).
  destruct (worst_fold (p0 :: ps) p0) as (Hin & _ & Hall).
  { constructor; [apply Forall_cons in Hfinite as [H0 _]; exact H0|exact Hfinite]. }
  cbn zeta in Hin, Hall.
  set (worst := foldl (fun worst pos =>
                         if nltb (pnlPercentage pos) (pnlPercentage worst)
                         then pos else worst) p0 (p0 :: ps)) in *.
  assert (worst ∈ p0 :: ps) as Hin_worst.
  { apply elem_of_cons in Hin as [Hin|Hin]; [rewrite Hin; left|exact Hin]. }
  exists (first_best p0 ps), worst, last_worst.
  split.
  { unfold usePortfolioStats. cbn [bestPerformer head foldl].
    destruct (Forall_cons_1 _ _ _ Hfinite) as [(q0 & H0) _].
    assert (nltb (pnlPercentage p0) (pnlPercentage p0) = false) as ->.
    { rewrite H0. apply xltb_Fin_false. apply Qle_refl. }
    rewrite best_fold by exact Hfinite. reflexivity. }
  split; [reflexivity|].
  split.
  { unfold getPortfolioSummary. cbn [length Nat.eqb topPerformer].
    rewrite Hhead. reflexivity. }
  split; [exact Hin_last|].
  split.
  { unfold getPortfolioSummary. cbn [length Nat.eqb worstPerformer].
    rewrite Hlast. reflexivity. }
  rewrite Forall_forall in Hall, Hlowest, Hfinite.
  specialize (Hall _ Hin_last). specialize (Hlowest _ Hin_worst).
  destruct (Hfinite _ Hin_last) as (ql & Hql).
  destruct (Hfinite _ Hin_worst) as (qw & Hqw).
  unfold pnl_le in Hall, Hlowest. rewrite Hql, Hqw in *.
  apply xleb_Fin in Hall, Hlowest. simpl. lra.
Qed.
End PerformersAgree.

Lemma best_performer_is_top_performer_witness :
  (worstPerformer (getPortfolioSummary 0 tied_at_the_bottom) = "third"
   /\ from_option id "" (stats_worstPerformer (usePortfolioStats tied_at_the_bottom))
      = "first")
  /\ exists best worst last_worst,
       bestPerformer (usePortfolioStats tied_at_the_bottom) = Some best
       /\ stats_worstPerformer (usePortfolioStats tied_at_the_bottom) = Some worst
       /\ topPerformer (getPortfolioSummary 0 tied_at_the_bottom) = id best
       /\ last_worst ∈ tied_at_the_bottom
       /\ worstPerformer (getPortfolioSummary 0 tied_at_the_bottom) = id last_worst
       /\ xeq (pnlPercentage last_worst) (pnlPercentage worst).
Proof.
  split; [split; vm_compute; reflexivity|].
  apply (best_performer_is_top_performer 0 (relabelled "first" 1)
           [relabelled "second" 7; relabelled "third" 1]).
  repeat constructor; eexists; reflexivity.
Defined.

(** * The position card and the formatters *)

Section Card.
Local Open Scope Q_scope.

End Card.


Section RangeBar.
Local Open Scope Q_scope.

End RangeBar.


Section Durations.
Variable toString : Z -> string.

End Durations.

